(** * Event-sourcing command dispatch: a shallow embedding of
      [src/schema.ts] and [src/event.ts]

    The development follows the two source files.

    - [processSchema] (schema.ts) compiles a declarative schema into
      per-table column lists and three statements per table.
    - [createCommand], [addReducer] (event.ts) maintain the two registries
      of an [eventSourcing] instance.
    - [runCommand], [reduceRow] (event.ts) talk to a database client; they
      are written in a state-and-exception monad over a model of the
      client: a transactional store with a working copy per open
      transaction, the trace of the statements received, and an oracle
      saying which statements the connection fails.

    JavaScript objects of type [any] are association lists of their own
    properties in enumeration order (the order of [Object.keys] and of
    [for ... in], which is the order of declaration except that
    integer-like names come first); typed [Record<string, _>] tables are
    [gmap string _].

    The engine keeps three plain objects of its own and tests what it
    reads from them for truthiness: [commandNames], the handler tables
    [reducers[table]] and the cache [selectedObjects].  A plain object
    answers for the names of [Object.prototype] as well as for its own
    keys, and these reads are modelled with that ([objectPrototype],
    [commandNames], [addReducer], [cached]).  Two things are left out: the
    properties of the built-in objects themselves, which a table called
    like a member of [Object.prototype] would reach through [reducers],
    and the replacement of the prototype link by an assignment under the
    key [__proto__], which is kept as an entry of the association list
    and reads back the same. *)

From stdpp Require Import gmap strings list fin_maps pretty.

Open Scope string_scope.
Open Scope list_scope.

Set Warnings "-clear-no-such-hyp".

(** ** JavaScript values and objects *)

(** The fragment of JavaScript values that flows through the engine.
    Numbers are integers. *)
#[warnings="-register-all"]
Inductive Value :=
| VUndefined
| VNull
| VBool (b : bool)
| VNum (n : Z)
| VStr (s : string)
| VObj (fields : list (string * Value))
| VBuiltin (member : string).   (* the member of that name of [Object.prototype] *)

(** An object as the list of its own enumerable properties. *)
Abbreviation Assoc V := (list (string * V)).

Definition akeys {V} (o : Assoc V) : list string := map fst o.

(** [o[k]], [None] standing for [undefined]. *)
Fixpoint aget {V} (k : string) (o : Assoc V) : option V :=
  match o with
  | [] => None
  | (k', v) :: rest => if String.eqb k k' then Some v else aget k rest
  end.

(** [o[k] = v]: an existing property keeps its position, a new one is
    appended. *)
Fixpoint aset {V} (k : string) (v : V) (o : Assoc V) : Assoc V :=
  match o with
  | [] => [(k, v)]
  | (k', v') :: rest =>
      if String.eqb k k' then (k, v) :: rest else (k', v') :: aset k v rest
  end.

(** The rest pattern [const { k, ...rest } = o]. *)
Definition aremove {V} (k : string) (o : Assoc V) : Assoc V :=
  filter (λ kv, negb (String.eqb k kv.1) = true) o.

(** Object spread [{ ...a, ...b }]. *)
Definition aspread {V} (a b : Assoc V) : Assoc V :=
  foldl (λ acc kv, aset kv.1 kv.2 acc) a b.

Abbreviation Obj := (Assoc Value).

(** The string-keyed members of [Object.prototype]: what [o[k]] yields on
    a plain object [o] that has no property [k] of its own.  All of them
    are functions but [__proto__], which reads as [Object.prototype]
    itself; all of them are truthy. *)
Definition objectPrototype : list string :=
  ["constructor"; "__defineGetter__"; "__defineSetter__"; "hasOwnProperty";
   "__lookupGetter__"; "__lookupSetter__"; "isPrototypeOf";
   "propertyIsEnumerable"; "toString"; "valueOf"; "__proto__";
   "toLocaleString"].

(** [({})[k]] *)
Definition inherited (k : string) : option Value :=
  if decide (k ∈ objectPrototype) then Some (VBuiltin k) else None.

(** Property read on a value of type [any], once it is known to be
    neither [undefined] nor [null].  Reducers return objects; the own
    properties of a string or of a built-in are not modelled. *)
Definition vget (k : string) (v : Value) : Value :=
  match v with
  | VObj fields => default VUndefined (aget k fields)
  | _ => VUndefined
  end.

(** The nullish coalescing [v ?? null]. *)
Definition orNull (v : Value) : Value :=
  match v with
  | VUndefined => VNull
  | _ => v
  end.

(** Conversion of a value used as a property key. *)
Definition toKey (v : Value) : string :=
  match v with
  | VUndefined => "undefined"
  | VNull => "null"
  | VBool true => "true"
  | VBool false => "false"
  | VNum n => pretty n
  | VStr s => s
  | VObj _ => "[object Object]"
  | VBuiltin "__proto__" => "[object Object]"
  | VBuiltin "constructor" => "function Object() { [native code] }"
  | VBuiltin member => "function " +:+ member +:+ "() { [native code] }"
  end.

(** ** Abrupt completion *)

Inductive Error :=
| JsError (message : string)        (* [throw new Error(message)] *)
| TypeError (message : string)      (* raised by the language itself *)
| DbError (statement : nat)         (* the client rejected a statement *)
| Thrown (v : Value).               (* raised by a collaborator callback *)

Inductive Completion (A : Type) :=
| Normal (a : A)
| Throw (e : Error).
Arguments Normal {A} a.
Arguments Throw {A} e.

(** ** schema.ts *)

Inductive DataType :=
| Bool | Int8 | Int2 | Int4 | Uuid | Text | Json | Timestamp
| ArrayJson | Jsonb | ArrayJsonb.

Abbreviation SchemaType := (Assoc (Assoc DataType)).

(** Statements sent to the client.  The three per-table statements keep
    the structure from which [processSchema] prints them ([sql_text]);
    [SqlAddEvent] and [SqlSelectEvents] are the constants [addEvent] and
    [selectEvents] of event.ts. *)
Inductive Sql :=
| SqlBegin
| SqlCommit
| SqlRollback
| SqlSelectForUpdate (names : list string) (table : string)
| SqlInsertReturning (table : string) (names : list string)
    (insertionValues : list nat)
| SqlUpdateCoalesce (table : string) (updateValues : list (string * nat))
    (idParam : nat)
| SqlAddEvent
| SqlSelectEvents.

Definition placeholder (i : nat) : string := "$" +:+ pretty i.

Definition updateValue_text (ni : string * nat) : string :=
  ni.1 +:+ "=COALESCE(" +:+ placeholder ni.2 +:+ ", " +:+ ni.1 +:+ ")".

(** The text of each statement, character for character. *)
Definition sql_text (q : Sql) : string :=
  match q with
  | SqlBegin => "begin"
  | SqlCommit => "commit"
  | SqlRollback => "rollback"
  | SqlSelectForUpdate names table =>
      "
      SELECT " +:+ String.concat "," names +:+ "
      FROM " +:+ table +:+ "
      WHERE id = $1::uuid FOR UPDATE
    "
  | SqlInsertReturning table names insertionValues =>
      "
      INSERT INTO " +:+ table +:+ "
      (" +:+ String.concat "," names +:+ ")
      VALUES (" +:+ String.concat "," (placeholder <$> insertionValues) +:+ ")
      RETURNING id::text
    "
  | SqlUpdateCoalesce table updateValues idParam =>
      "
      UPDATE " +:+ table +:+ "
      SET " +:+ String.concat "," (updateValue_text <$> updateValues) +:+ "
      WHERE id = " +:+ placeholder idParam +:+ "::uuid
    "
  | SqlAddEvent =>
      "
  INSERT INTO events
  (name, table_name, row_id, actor_id, data, created_at)
  VALUES (
    $1, $2, $3::uuid,
    $4::uuid, $5::jsonb, $6::timestamp
  )
"
  | SqlSelectEvents =>
      "
  SELECT name, data FROM events
  WHERE table_name = $1 AND row_id = $2::uuid
  ORDER BY id ASC
"
  end.

Record SchemaInfo := mkSchemaInfo {
  namesForTable : gmap string (list string);
  selectUpdateForTable : gmap string Sql;
  createForTable : gmap string Sql;
  updateForTable : gmap string Sql;
}.

Definition emptySchemaInfo : SchemaInfo :=
  mkSchemaInfo ∅ ∅ ∅ ∅.

(** One iteration of [for (const table in schema)]. *)
Definition processTable (schema : SchemaType) (info : SchemaInfo)
    (table : string) : SchemaInfo :=
  if String.eqb table "events" then info
  else
    match aget table schema with
    | None => info
    | Some columns =>
        let names := akeys columns in
        let insertionValues := imap (λ i _, i + 1) names in
        let updateValues := imap (λ i n, (n, i + 1)) names in
        {| namesForTable := <[table := names]> (namesForTable info);
           selectUpdateForTable :=
             <[table := SqlSelectForUpdate names table]>
               (selectUpdateForTable info);
           createForTable :=
             <[table := SqlInsertReturning table names insertionValues]>
               (createForTable info);
           updateForTable :=
             <[table := SqlUpdateCoalesce table updateValues
                          (length names + 1)]>
               (updateForTable info) |}
    end.

Definition processSchema (schema : SchemaType) : SchemaInfo :=
  foldl (processTable schema) emptySchemaInfo (akeys schema).

(** ** The store behind the client *)

(** A row of the [events] table, in the column order of [addEvent]. *)
Record LogEntry := mkLogEntry {
  le_name : Value;
  le_table_name : Value;
  le_row_id : Value;
  le_actor_id : Value;
  le_data : Value;
  le_created_at : Value;
}.

(** Modelled from the spec: the database client ([Client] of ts-postgres)
    and the store behind it are collaborators outside the repository; the
    definitions of this section give them the behaviour that the store
    boundary of the specification and the SQL text of the statements
    describe.  Persistent data are the rows of every table (a row maps
    column names, [id] included, to values) and the event log in insertion
    order, which is the order of its serial [id]. *)
Record Store := mkStore {
  tables : gmap string (list Obj);
  events : list LogEntry;
}.

(** What the engine does not control: which statements the connection
    rejects, and the identifier the store generates for a row inserted by
    the [n]-th statement ([None]: no identifier, [RETURNING] yields
    [NULL]). *)
Record Oracle := mkOracle {
  fails : nat → Sql → bool;
  generatedId : nat → option string;
}.

Inductive LogLine :=
| LogFailed (e : Error)                 (* console.log("Failed: ", e) *)
| LogInvalidEvent                       (* console.error("Received invalid event") *)
| LogMismatch                           (* console.error("reached potentially invalid state: ...") *)
| LogPair (a b : Value).                (* console.log(a, b) *)

(** The client and the console.  [working] is the private copy of the
    store that an open transaction reads and writes; [sent] lists the
    statements received so far with their parameters, and a statement is
    numbered by how many were received before it. *)
Record World := mkWorld {
  committed : Store;
  working : option Store;
  sent : list (Sql * list Value);
  console : list LogLine;
}.

Definition current (w : World) : Store := default (committed w) (working w).

Definition setCurrent (s : Store) (w : World) : World :=
  match working w with
  | Some _ => mkWorld (committed w) (Some s) (sent w) (console w)
  | None => mkWorld s None (sent w) (console w)
  end.

Definition vstr_eqb (v : Value) (s : string) : bool :=
  match v with
  | VStr s' => String.eqb s' s
  | _ => false
  end.

Definition hasId (id : string) (row : Obj) : bool :=
  vstr_eqb (default VNull (aget "id" row)) id.

(** [table_name = $1 AND row_id = $2::uuid] on an entry of the log. *)
Definition onRow (table_name row_id : string) (e : LogEntry) : bool :=
  vstr_eqb (le_table_name e) table_name && vstr_eqb (le_row_id e) row_id.

(** [$i] of a parameter list. *)
Definition param (params : list Value) (i : nat) : Value :=
  default VNull (params !! (i - 1)).

(** [COALESCE(new, old)]. *)
Definition coalesce (new old : Value) : Value :=
  match new with
  | VNull | VUndefined => old
  | _ => new
  end.

(** [SET c = COALESCE($p, c), ...] on one row: every assigned column is
    computed from the old row. *)
Definition updateRow (updateValues : Assoc nat) (params : list Value)
    (row : Obj) : Obj :=
  map (λ cv : string * Value,
         (cv.1, match aget cv.1 updateValues with
                | Some p => coalesce (param params p) cv.2
                | None => cv.2
                end)) row.

(** [INSERT INTO t (names) VALUES (...)]: the new row, its [id] filled by
    the store unless [id] is one of the inserted columns. *)
Definition insertedRow (defaultId : Value) (names : list string)
    (insertionValues : list nat) (params : list Value) : Obj :=
  foldl (λ row np, aset np.1 (orNull (param params np.2)) row)
        [("id", defaultId)] (zip names insertionValues).

(** [id::text] of a row. *)
Definition idText (row : Obj) : Value :=
  match aget "id" row with
  | Some (VStr s) => VStr s
  | _ => VNull
  end.

Definition withTable (s : Store) (table : string) (rows : list Obj) : Store :=
  mkStore (<[table := rows]> (tables s)) (events s).

(** Modelled from the spec: the meaning of the data statements on the
    store they run against, read off their SQL text.  A statement on a
    table the store does not have, or with an identifier that is not a
    string, is rejected.  [n] is the number of the statement. *)
Definition exec (o : Oracle) (n : nat) (q : Sql) (params : list Value)
    (s : Store) : Completion (list (list Value)) * Store :=
  match q with
  | SqlSelectForUpdate names table =>
      match tables s !! table, param params 1 with
      | Some rows, VStr id =>
          (Normal ((λ row : Obj, (λ c, default VNull (aget c row)) <$> names)
                     <$> filter (λ row, hasId id row = true) rows), s)
      | _, _ => (Throw (DbError n), s)
      end
  | SqlInsertReturning table names insertionValues =>
      match tables s !! table with
      | Some rows =>
          let defaultId :=
            match generatedId o n with Some i => VStr i | None => VNull end in
          let row := insertedRow defaultId names insertionValues params in
          (Normal [[idText row]], withTable s table (rows ++ [row]))
      | None => (Throw (DbError n), s)
      end
  | SqlUpdateCoalesce table updateValues idParam =>
      match tables s !! table, param params idParam with
      | Some rows, VStr id =>
          (Normal [],
           withTable s table
             ((λ row, if hasId id row then updateRow updateValues params row
                      else row) <$> rows))
      | Some rows, VNull => (Normal [], s)
      | _, _ => (Throw (DbError n), s)
      end
  | SqlAddEvent =>
      match params with
      | [name; table_name; row_id; actor_id; data; created_at] =>
          (Normal [],
           mkStore (tables s)
             (events s ++
              [mkLogEntry name table_name row_id actor_id data created_at]))
      | _ => (Throw (DbError n), s)
      end
  | SqlSelectEvents =>
      match params with
      | [VStr table_name; VStr row_id] =>
          (Normal ((λ e, [le_name e; le_data e]) <$>
                   filter (λ e, onRow table_name row_id e = true) (events s)),
           s)
      | _ => (Throw (DbError n), s)
      end
  | SqlBegin | SqlCommit | SqlRollback => (Normal [], s)
  end.

(** ** The monad of code that awaits the client *)

Definition M (A : Type) : Type := World → Completion A * World.

Definition ret {A} (a : A) : M A := λ w, (Normal a, w).

Definition throw {A} (e : Error) : M A := λ w, (Throw e, w).

Definition bind {A B} (c : M A) (k : A → M B) : M B :=
  λ w, match c w with
       | (Normal a, w') => k a w'
       | (Throw e, w') => (Throw e, w')
       end.

Notation "x <- c ;; k" := (bind c (λ x, k))
  (at level 100, c at next level, right associativity).
Notation "c ;; k" := (bind c (λ _, k))
  (at level 100, right associativity).

(** [try { body } catch (e) { handler(e) }]. *)
Definition tryCatch {A} (body : M A) (handler : Error → M A) : M A :=
  λ w, match body w with
       | (Normal a, w') => (Normal a, w')
       | (Throw e, w') => handler e w'
       end.

(** A synchronous computation that may throw. *)
Definition lift {A} (c : Completion A) : M A := λ w, (c, w).

(** A collaborator callback that is handed the client: it may read the
    data visible to the open transaction. *)
Definition liftRead {A} (c : Store → Completion A) : M A :=
  λ w, (c (current w), w).

Definition consoleLog (l : LogLine) : M unit :=
  λ w, (Normal tt,
        mkWorld (committed w) (working w) (sent w) (console w ++ [l])).

Fixpoint foldM {A B} (f : A → B → M A) (a : A) (l : list B) : M A :=
  match l with
  | [] => ret a
  | b :: l' => a' <- f a b ;; foldM f a' l'
  end.

Definition tick (q : Sql) (params : list Value) (w : World) : World :=
  mkWorld (committed w) (working w) (sent w ++ [(q, params)]) (console w).

(** Modelled from the spec: [await client.query(q, params)], returning
    [result.rows].  A rejected statement has no effect; [begin] opens a
    transaction on a copy of the committed data unless one is open,
    [commit] makes the copy the committed data, [rollback] discards it,
    and outside a transaction a data statement commits at once. *)
Definition query (o : Oracle) (q : Sql) (params : list Value)
    : M (list (list Value)) :=
  λ w,
    let n := length (sent w) in
    let w1 := tick q params w in
    if fails o n q then (Throw (DbError n), w1)
    else
      match q with
      | SqlBegin =>
          (Normal [],
           match working w1 with
           | Some _ => w1
           | None => mkWorld (committed w1) (Some (committed w1))
                       (sent w1) (console w1)
           end)
      | SqlCommit =>
          (Normal [],
           match working w1 with
           | Some s => mkWorld s None (sent w1) (console w1)
           | None => w1
           end)
      | SqlRollback =>
          (Normal [],
           mkWorld (committed w1) None (sent w1) (console w1))
      | _ =>
          let '(r, s') := exec o n q params (current w1) in
          (r, setCurrent s' w1)
      end.

(** ** event.ts: types *)

(** [Mutator]: logical field name to the row it names. *)
Record MutatorTarget := mkTarget {
  mt_table : string;
  mt_id : string;
}.

Abbreviation Mutator := (Assoc MutatorTarget).

(** [CreationEvent | ModificationEvent]; the first field is the property
    under the private symbol [_event_name], [kind] is the constructor. *)
Inductive ESEvent :=
| CreationEvent (eventName : string) (table : Value) (data : Value)
| ModificationEvent (eventName : string) (rowId : string) (table : Value)
    (data : Value).

Definition ev_name (e : ESEvent) : string :=
  match e with
  | CreationEvent n _ _ | ModificationEvent n _ _ _ => n
  end.

Definition ev_table (e : ESEvent) : Value :=
  match e with
  | CreationEvent _ t _ | ModificationEvent _ _ t _ => t
  end.

Definition ev_data (e : ESEvent) : Value :=
  match e with
  | CreationEvent _ _ d | ModificationEvent _ _ _ d => d
  end.

(** [DispatchCommand]: what [runCommand] uses of a command.  The callbacks
    may throw; [planActions] is handed the client and may read through it.
    An element [None] of the planned list is the marker [undefined]. *)
Record DispatchCommand (Input : Type) := mkDispatch {
  name : string;
  mutator : Input → Completion Mutator;
  planActions : Store → Input → Obj → Completion (list (option ESEvent));
}.
Arguments mkDispatch {Input} _ _ _.
Arguments name {Input} _.
Arguments mutator {Input} _ _.
Arguments planActions {Input} _ _ _ _.

(** [CreatorCommand & { kind: "create"; table? }]. *)
Record CreatorCommand := mkCreator {
  cc_name : string;
  cc_mutator : Obj → Completion Mutator;
  cc_table : option string;
  cc_validate : Store → Obj → Obj → Completion unit;
}.

(** [UpdaterCommand & { kind: "modify"; table? }]. *)
Record UpdaterCommand := mkUpdater {
  uc_name : string;
  uc_mutator : Obj → Completion Mutator;
  uc_table : option string;
  uc_validate : Store → Obj → Obj → Completion string;
}.

(** The argument of [createCommand], one constructor per group of
    overloads. *)
Inductive CommandArg : Type → Type :=
| ArgCreate (command : CreatorCommand) : CommandArg Obj
| ArgModify (command : UpdaterCommand) : CommandArg Obj
| ArgDispatch {Input} (command : DispatchCommand Input) : CommandArg Input.

(** What [createCommand] returns: the dispatchable command and, for the
    create and modify kinds, the [event] factory. *)
Inductive Registered : Type → Type :=
| RegCreate (command : DispatchCommand Obj) (event : Obj → ESEvent)
    : Registered Obj
| RegModify (command : DispatchCommand Obj) (event : string → Obj → ESEvent)
    : Registered Obj
| RegDispatch {Input} (command : DispatchCommand Input) : Registered Input.

Definition dispatchOf {Input} (r : Registered Input) : DispatchCommand Input :=
  match r with
  | RegCreate c _ => c
  | RegModify c _ => c
  | RegDispatch c => c
  end.

(** The objects stored by [ReducerObject.creator] and
    [ReducerObject.updater]. *)
Inductive Reducer :=
| ReducerCreate (creator : Value → Completion Value)
| ReducerModify (updater : Value → Value → Completion Value).

(** The mutable state of one [eventSourcing] instance, and what its
    registration functions print.  [ownCommandNames] holds the keys of
    the object [commandNames]. *)
Record Registry := mkRegistry {
  reducers : gmap string (gmap string Reducer);
  ownCommandNames : gset string;
  printed : list LogLine;
}.

Definition emptyRegistry : Registry := mkRegistry ∅ ∅ [].

(** The names [name] at which [commandNames[name]] is truthy: the keys of
    the object, which all hold [true], and the names it inherits. *)
Definition commandNames (reg : Registry) : gset string :=
  ownCommandNames reg ∪ list_to_set objectPrototype.

Definition R (A : Type) : Type := Registry → Completion A * Registry.

(** ** event.ts: registration *)

Section CreateCommand.
Variables (name : string) (commandTable : option string).

(** [commandTable ?? table]. *)
Definition resolveTable (table : Value) : Value :=
  match commandTable with
  | Some t => VStr t
  | None => table
  end.

Definition creatorEvent (data_ : Obj) : ESEvent :=
  let table := default VUndefined (aget "table" data_) in
  let data := aremove "table" data_ in
  CreationEvent name (resolveTable table) (VObj data).

Definition updaterEvent (rowId : string) (data_ : Obj) : ESEvent :=
  let table := default VUndefined (aget "table" data_) in
  let data := aremove "table" data_ in
  ModificationEvent name rowId (resolveTable table) (VObj data).

Definition creatorPlanActions
    (validate : Store → Obj → Obj → Completion unit)
    (client : Store) (input : Obj) (mutator : Obj)
    : Completion (list (option ESEvent)) :=
  match validate client input mutator with
  | Normal _ => Normal [Some (creatorEvent input)]
  | Throw e => Throw e
  end.

Definition updaterPlanActions
    (validate : Store → Obj → Obj → Completion string)
    (client : Store) (input : Obj) (mutator : Obj)
    : Completion (list (option ESEvent)) :=
  match validate client input mutator with
  | Normal id => Normal [Some (updaterEvent id input)]
  | Throw e => Throw e
  end.
End CreateCommand.

Definition argName {Input} (command : CommandArg Input) : string :=
  match command with
  | ArgCreate c => cc_name c
  | ArgModify c => uc_name c
  | ArgDispatch c => name c
  end.

Definition createCommand {Input} (command : CommandArg Input)
    : R (Registered Input) :=
  λ reg,
    let name := argName command in
    if decide (name ∈ commandNames reg)
    then (Throw (JsError ("Duplicate command name " +:+ name)), reg)
    else
      let reg' :=
        mkRegistry (reducers reg) ({[name]} ∪ ownCommandNames reg)
          (printed reg) in
      (Normal
         match command in CommandArg T return Registered T with
         | ArgCreate c =>
             RegCreate
               (mkDispatch (cc_name c) (cc_mutator c)
                  (creatorPlanActions (cc_name c) (cc_table c) (cc_validate c)))
               (creatorEvent (cc_name c) (cc_table c))
         | ArgModify c =>
             RegModify
               (mkDispatch (uc_name c) (uc_mutator c)
                  (updaterPlanActions (uc_name c) (uc_table c) (uc_validate c)))
               (updaterEvent (uc_name c) (uc_table c))
         | ArgDispatch c => RegDispatch c
         end, reg').

(** The reducer stored for a table and an event name.  In the loop of
    [runCommand] the name is an event's: the name of a registered
    command, which [createCommand] never lets be the name of a member of
    [Object.prototype]. *)
Definition reducerFor (reducers : gmap string (gmap string Reducer))
    (table name : string) : option Reducer :=
  reducers !! table ≫= λ handlers, handlers !! name.

(** [reducers[table] ||= {}], then the test of [reducers[table][name]],
    which is truthy for a stored reducer and for a name that the handler
    table inherits.  The handler tables are looked up by their own key:
    see the note on built-in objects at the head of the file. *)
Definition addReducer (table name : string) (reducer : Reducer) : R unit :=
  λ reg,
    let reducers1 :=
      match reducers reg !! table with
      | Some _ => reducers reg
      | None => <[table := ∅]> (reducers reg)
      end in
    if decide (is_Some (reducerFor reducers1 table name) ∨
               name ∈ objectPrototype)
    then
      (Throw (JsError "Duplicate event handler for table"),
       mkRegistry reducers1 (ownCommandNames reg)
         (printed reg ++ [LogPair (VStr name) (VStr table)]))
    else
      (Normal tt,
       mkRegistry
         (<[table := <[name := reducer]> (default ∅ (reducers1 !! table))]>
            reducers1)
         (ownCommandNames reg) (printed reg)).

(** [createReducer(table).creator(eventInfo, creator)] and
    [.updater(eventInfo, updater)]. *)
Definition creator (table eventInfoName : string)
    (f : Value → Completion Value) : R unit :=
  addReducer table eventInfoName (ReducerCreate f).

Definition updater (table eventInfoName : string)
    (f : Value → Value → Completion Value) : R unit :=
  addReducer table eventInfoName (ReducerModify f).

(** ** event.ts: the dispatcher *)

(** [data[name]] on a value of type [any]. *)
Definition getProp (data : Value) (name : string) : Completion Value :=
  match data with
  | VUndefined | VNull =>
      Throw (TypeError "Cannot read properties of undefined or null")
  | _ => Normal (vget name data)
  end.

(** [names.map((name) => data[name] ?? null)] *)
Fixpoint projectRow (data : Value) (names : list string)
    : Completion (list Value) :=
  match names with
  | [] => Normal []
  | name :: rest =>
      match getProp data name with
      | Throw e => Throw e
      | Normal v =>
          match projectRow data rest with
          | Throw e => Throw e
          | Normal vs => Normal (orNull v :: vs)
          end
      end
  end.

(** A table of [SchemaInfo] read at a key that may be missing: using the
    [undefined] it yields is a failure. *)
Definition defined {A} (what : string) (x : option A) : M A :=
  match x with
  | Some a => ret a
  | None => throw (TypeError (what +:+ " is undefined"))
  end.

(** The own properties that [{ ...v }] copies. *)
Definition spreadOf (v : Value) : Obj :=
  match v with
  | VObj fields => fields
  | _ => []
  end.

(** [result.rows[0]?.[0]] *)
Definition firstCell (rows : list (list Value)) : Value :=
  match rows with
  | [] => VUndefined
  | row :: _ => default VUndefined (head row)
  end.

Definition failedId : string := "failed to get ID from data".

Definition notRequested : string :=
  "Tried to update object that wasn't requested in mutator".

(** [selectedObjects[rowId]]: the row cached under the id or, the cache
    being a plain object, the member of [Object.prototype] of that name. *)
Definition cached (rowId : string) (selectedObjects : Obj) : option Value :=
  match aget rowId selectedObjects with
  | Some row => Some row
  | None => inherited rowId
  end.

Section Dispatcher.
Variable oracle : Oracle.
Variable schema : SchemaType.
Variable reducers : gmap string (gmap string Reducer).

(** The tables that [eventSourcing(schema)] takes from
    [processSchema(schema)]. *)
Abbreviation info := (processSchema schema).

(** The body of [for (const field in mutator)]: the accumulator is
    [(selectedObjects, mutatorData)]. *)
Definition lockRow (mutator : Mutator) (acc : Obj * Obj) (field : string)
    : M (Obj * Obj) :=
  match aget field mutator with
  | None => ret acc
  | Some target =>
      let table := mt_table target in
      let id := mt_id target in
      q <- defined "query" (selectUpdateForTable info !! table) ;;
      rows <- query oracle q [VStr id] ;;
      match rows with
      | [] => ret acc
      | data :: _ =>
          names <- defined "namesForTable[table]"
                     (namesForTable info !! table) ;;
          let outputData :=
            foldl (λ out fi, aset fi.2 (default VUndefined (data !! fi.1)) out)
                  [("id", VStr id)] (imap (λ index sqlField, (index, sqlField)) names) in
          ret (aset id (VObj outputData) acc.1,
               aset field (VObj outputData) acc.2)
      end
  end.

Definition lockRows (mutator : Mutator) : M (Obj * Obj) :=
  foldM (lockRow mutator) ([], []) (akeys mutator).

(** The [create] branch of the loop over the planned events. *)
Definition applyCreate (actorId now : Value) (creator : Value → Completion Value)
    (eventName : string) (table data : Value) : M unit :=
  let names := namesForTable info !! toKey table in
  let insertQuery := createForTable info !! toKey table in
  data' <- lift (creator data) ;;
  names <- defined "names" names ;;
  rowData <- lift (projectRow data' names) ;;
  insertQuery <- defined "query" insertQuery ;;
  rows <- query oracle insertQuery rowData ;;
  match firstCell rows with
  | VStr id =>
      query oracle SqlAddEvent
        [VStr eventName; table; VStr id; actorId; data; now] ;;
      ret tt
  | _ => throw (JsError failedId)
  end.

(** The [modify] branch; returns the new [selectedObjects]. *)
Definition applyModify (actorId now : Value)
    (updater : Value → Value → Completion Value)
    (selectedObjects : Obj) (eventName rowId : string) (table data : Value)
    : M Obj :=
  let names := namesForTable info !! toKey table in
  let updateQuery := updateForTable info !! toKey table in
  match cached rowId selectedObjects with
  | None => throw (JsError notRequested)
  | Some prev =>
      data' <- lift (updater prev data) ;;
      let selectedObjects' :=
        aset rowId (VObj (aspread (spreadOf prev) (spreadOf data')))
             selectedObjects in
      names <- defined "names" names ;;
      rowData <- lift (projectRow data' names) ;;
      let rowData := rowData ++ [VStr rowId] in
      updateQuery <- defined "query" updateQuery ;;
      query oracle updateQuery rowData ;;
      query oracle SqlAddEvent
        [VStr eventName; table; VStr rowId; actorId; data; now] ;;
      ret selectedObjects'
  end.

(** The body of [for (const event of events)]. *)
Definition applyEvent (actorId now : Value) (selectedObjects : Obj)
    (event : option ESEvent) : M Obj :=
  match event with
  | None => ret selectedObjects
  | Some event =>
      let eventName := ev_name event in
      if String.eqb eventName "" then
        consoleLog LogInvalidEvent ;; ret selectedObjects
      else
        let table := ev_table event in
        match reducerFor reducers (toKey table) eventName with
        | None => ret selectedObjects
        | Some reducer =>
            match reducer, event with
            | ReducerCreate creator, CreationEvent _ _ data =>
                applyCreate actorId now creator eventName table data ;;
                ret selectedObjects
            | ReducerModify updater, ModificationEvent _ rowId _ data =>
                applyModify actorId now updater selectedObjects eventName
                  rowId table data
            | _, _ => consoleLog LogMismatch ;; ret selectedObjects
            end
        end
  end.

Definition applyEvents (actorId now : Value) (selectedObjects : Obj)
    (events : list (option ESEvent)) : M Obj :=
  foldM (applyEvent actorId now) selectedObjects events.

(** The [try] block of [runCommand]. *)
Definition runCommandBody {Input} (command : DispatchCommand Input)
    (input : Input) (actorId : string) (now : Value) : M unit :=
  query oracle SqlBegin [] ;;
  mutator <- lift (mutator command input) ;;
  locked <- lockRows mutator ;;
  let selectedObjects := locked.1 in
  let mutatorData := locked.2 in
  events <- liftRead (λ client, planActions command client input mutatorData) ;;
  applyEvents (VStr actorId) now selectedObjects events ;;
  query oracle SqlCommit [] ;;
  ret tt.

(** [now] is the value of [new Date()] taken on entry. *)
Definition runCommand {Input} (command : DispatchCommand Input)
    (input : Input) (actorId : string) (now : Value) : M unit :=
  tryCatch (runCommandBody command input actorId now)
    (λ e, consoleLog (LogFailed e) ;;
          query oracle SqlRollback [] ;;
          ret tt).

(** [for (const [name, data] of result.rows) console.log(name, data)] *)
Definition printRow (_ : unit) (row : list Value) : M unit :=
  consoleLog (LogPair (default VUndefined (row !! 0))
                      (default VUndefined (row !! 1))).

Definition reduceRow (table rowId : string) : M Value :=
  tryCatch
    (query oracle SqlBegin [] ;;
     rows <- query oracle SqlSelectEvents [VStr table; VStr rowId] ;;
     foldM printRow tt rows ;;
     query oracle SqlCommit [] ;;
     ret (VObj []))
    (λ e, consoleLog (LogFailed e) ;;
          query oracle SqlRollback [] ;;
          ret (VObj [])).
End Dispatcher.

(** ** A small instance: one table [items], one creator, one updater *)

Module Demo.
Definition schema : SchemaType :=
  [("items", [("name", Text); ("value", Int4)]);
   ("events", [("created_at", Timestamp); ("name", Text);
               ("table_name", Text); ("row_id", Uuid);
               ("actor_id", Uuid); ("data", Jsonb)])].

(** [(data) => ({ name: data.name, value: data.value })] *)
Definition itemCreator (data : Value) : Completion Value :=
  Normal (VObj [("name", vget "name" data); ("value", vget "value" data)]).

(** [(previous, _) => ({ value: previous.value + 1 })] *)
Definition bumpUpdater (previous _ : Value) : Completion Value :=
  match vget "value" previous with
  | VNum n => Normal (VObj [("value", VNum (n + 1))])
  | _ => Throw (Thrown (VStr "value is not a number"))
  end.

(** [(_, data) => ({ name: data.name })] *)
Definition renameUpdater (_ data : Value) : Completion Value :=
  Normal (VObj [("name", vget "name" data)]).

Definition createItemArg : CommandArg Obj :=
  ArgCreate (mkCreator "createItem" (λ _, Normal []) (Some "items")
               (λ _ _ _, Normal tt)).

Definition targetOf (input : Obj) : string :=
  match aget "id" input with
  | Some (VStr id) => id
  | _ => ""
  end.

Definition itemMutator (input : Obj) : Completion Mutator :=
  Normal [("item", mkTarget "items" (targetOf input))].

Definition bumpArg : CommandArg Obj :=
  ArgModify (mkUpdater "bump" itemMutator (Some "items")
               (λ _ input _, Normal (targetOf input))).

Definition renameArg : CommandArg Obj :=
  ArgModify (mkUpdater "rename" itemMutator (Some "items")
               (λ _ input _, Normal (targetOf input))).

(** A generic command that plans two changes of the row [r1], with a
    no-op marker in between. *)
Definition touch : DispatchCommand Obj :=
  mkDispatch "touch" (λ _, Normal [("item", mkTarget "items" "r1")])
    (λ _ _ _,
       Normal [Some (ModificationEvent "bump" "r1" (VStr "items") (VObj []));
               None;
               Some (ModificationEvent "rename" "r1" (VStr "items")
                       (VObj [("name", VStr "b")]))]).


(** The registrations of the instance, in order. *)
Definition setup : R unit :=
  λ reg,
    let reg := (createCommand createItemArg reg).2 in
    let reg := (createCommand bumpArg reg).2 in
    let reg := (createCommand renameArg reg).2 in
    let reg := (creator "items" "createItem" itemCreator reg).2 in
    let reg := (updater "items" "bump" bumpUpdater reg).2 in
    updater "items" "rename" renameUpdater reg.

Definition registry : Registry := (setup emptyRegistry).2.

Definition commandOf (arg : CommandArg Obj) : DispatchCommand Obj :=
  match (createCommand arg emptyRegistry).1 with
  | Normal r => dispatchOf r
  | Throw _ => mkDispatch "" (λ _, Normal []) (λ _ _ _, Normal [])
  end.

Definition createItem : DispatchCommand Obj := commandOf createItemArg.
Definition bump : DispatchCommand Obj := commandOf bumpArg.
Definition rename : DispatchCommand Obj := commandOf renameArg.

(** A connection that never fails, on a store that numbers its rows. *)
Definition healthy : Oracle :=
  mkOracle (λ _ _, false) (λ n, Some ("row-" +:+ pretty n)).

(** A connection that rejects every statement. *)
Definition dead : Oracle := mkOracle (λ _ _, true) (λ _, None).

(** A connection that rejects everything but [rollback]. *)
Definition flaky : Oracle :=
  mkOracle (λ _ q, match q with SqlRollback => false | _ => true end)
           (λ _, None).

(** A store that hands out no identifiers. *)
Definition noIds : Oracle := mkOracle (λ _ _, false) (λ _, None).

Definition emptyStore : Store := mkStore {["items" := []]} [].

Definition world0 : World := mkWorld emptyStore None [] [].

Definition item5 : Obj :=
  [("id", VStr "r1"); ("name", VStr "a"); ("value", VNum 5)].

Definition store5 : Store := mkStore {["items" := [item5]]} [].

Definition world5 : World := mkWorld store5 None [] [].

Definition run (o : Oracle) (command : DispatchCommand Obj) (input : Obj)
    : M unit :=
  runCommand o schema (reducers registry) command input "actor" (VNum 0).

(** The world after creating an item and bumping it twice. *)
Definition logged : World :=
  let w1 := (run healthy createItem [("name", VStr "a"); ("value", VNum 5)]
               world0).2 in
  let w2 := (run healthy bump [("id", VStr "row-1")] w1).2 in
  (run healthy bump [("id", VStr "row-1")] w2).2.
End Demo.

(** ** Vocabulary of the statements below *)

(** What [processSchema] stores for one table. *)
Definition compiledNames (columns : Assoc DataType) : list string :=
  akeys columns.

Definition compiledSelect (table : string) (columns : Assoc DataType) : Sql :=
  SqlSelectForUpdate (akeys columns) table.

Definition compiledInsert (table : string) (columns : Assoc DataType) : Sql :=
  SqlInsertReturning table (akeys columns) (seq 1 (length columns)).

Definition compiledUpdate (table : string) (columns : Assoc DataType) : Sql :=
  SqlUpdateCoalesce table (zip (akeys columns) (seq 1 (length columns)))
    (length columns + 1).

(** The four tables after the loop has visited the keys [ks]. *)
Definition visited (schema : SchemaType) (ks : list string) (table : string)
    : option (Assoc DataType) :=
  if decide (table ∈ ks ∧ table ≠ "events") then aget table schema else None.

(** Statements that read or write data, as opposed to transaction
    control. *)
Definition isData (q : Sql) : Prop :=
  match q with
  | SqlBegin | SqlCommit | SqlRollback => False
  | _ => True
  end.

(** A computation all of whose runs relate the world before to the world
    after by [P]. *)
Definition preserved {A} (P : World → World → Prop) (c : M A) : Prop :=
  ∀ w r w', c w = (r, w') → P w w'.

(** Inside an open transaction the committed store is out of reach and
    the transaction stays open. *)
Definition stable (w w' : World) : Prop :=
  is_Some (working w) →
  committed w' = committed w ∧ is_Some (working w').

(** The data visible to the client and the committed data are the same,
    and an open transaction stays open. *)
Definition sameData (w w' : World) : Prop :=
  current w' = current w ∧ committed w' = committed w ∧
  (is_Some (working w) → is_Some (working w')).

(** [runCommand] up to the loop over the planned events: the cache of
    locked rows and the events as planned. *)
Definition lockAndPlan {Input} (oracle : Oracle) (schema : SchemaType)
    (command : DispatchCommand Input) (input : Input)
    : M (Obj * list (option ESEvent)) :=
  query oracle SqlBegin [] ;;
  mutator <- lift (mutator command input) ;;
  locked <- lockRows oracle schema mutator ;;
  events <- liftRead (λ client, planActions command client input locked.2) ;;
  ret (locked.1, events).

(** The cache still has [Object.prototype] as its prototype: no row was
    cached under the id [__proto__], an assignment that would replace the
    prototype, through which other ids would then be looked up. *)
Definition plainCache (selectedObjects : Obj) : Prop :=
  aget "__proto__" selectedObjects = None.

(** An event that makes the loop of [runCommand] throw [message] when it
    is reached with the cache [selectedObjects] in the world [w]: a modify
    event for a registered updater for whose row id the cache yields
    nothing, or a create event for a registered creator whose insert
    statement returns no string as the identifier. *)
Definition fatalAt (oracle : Oracle) (schema : SchemaType)
    (reducers : gmap string (gmap string Reducer)) (selectedObjects : Obj)
    (w : World) (event : ESEvent) (message : string) : Prop :=
  ev_name event ≠ "" ∧
  match event with
  | ModificationEvent eventName rowId table data =>
      (∃ updater, reducerFor reducers (toKey table) eventName
                    = Some (ReducerModify updater)) ∧
      cached rowId selectedObjects = None ∧
      message = notRequested
  | CreationEvent eventName table data =>
      ∃ creator row names rowData insertQuery rows w',
        reducerFor reducers (toKey table) eventName
          = Some (ReducerCreate creator) ∧
        creator data = Normal row ∧
        namesForTable (processSchema schema) !! toKey table = Some names ∧
        projectRow row names = Normal rowData ∧
        createForTable (processSchema schema) !! toKey table
          = Some insertQuery ∧
        query oracle insertQuery rowData w = (Normal rows, w') ∧
        (∀ id, firstCell rows ≠ VStr id) ∧
        message = failedId
  end.



(** The events that the loop applies: named, with a registered reducer of
    the event's own kind. *)
Definition applicable (reducers : gmap string (gmap string Reducer))
    (event : ESEvent) : bool :=
  negb (String.eqb (ev_name event) "") &&
  match reducerFor reducers (toKey (ev_table event)) (ev_name event), event with
  | Some (ReducerCreate _), CreationEvent _ _ _ => true
  | Some (ReducerModify _), ModificationEvent _ _ _ _ => true
  | _, _ => false
  end.

(** [entry] is the log entry that [runCommand] appends for [event]. *)
Definition logs (actorId now : Value) (event : ESEvent) (entry : LogEntry)
    : Prop :=
  le_name entry = VStr (ev_name event) ∧
  le_table_name entry = ev_table event ∧
  le_actor_id entry = actorId ∧
  le_data entry = ev_data event ∧
  le_created_at entry = now ∧
  match event with
  | ModificationEvent _ rowId _ _ => le_row_id entry = VStr rowId
  | CreationEvent _ _ _ => ∃ id, le_row_id entry = VStr id
  end.

(** The contract that the specification gives [reduceRow], in its words:
    the entries of the row in log order; the first one, which must have a
    create-kind reducer, seeds the row; each later one merges the partial
    result of its modify-kind reducer; an empty log is a "row not found"
    failure.  An entry whose reducer is missing or of the other kind is
    reported as a failure as well. *)
Definition replayStep (reducers : gmap string (gmap string Reducer))
    (table : string) (acc : Completion Value) (entry : LogEntry)
    : Completion Value :=
  match acc with
  | Throw e => Throw e
  | Normal row =>
      match reducerFor reducers table (toKey (le_name entry)) with
      | Some (ReducerModify updater) =>
          match updater row (le_data entry) with
          | Normal partial =>
              Normal (VObj (aspread (spreadOf row) (spreadOf partial)))
          | Throw e => Throw e
          end
      | _ => Throw (JsError "no modify reducer for a logged event")
      end
  end.

Definition reduceRowIntended (reducers : gmap string (gmap string Reducer))
    (table rowId : string) (s : Store) : Completion Value :=
  match filter (λ e, onRow table rowId e = true) (events s) with
  | [] => Throw (JsError "row not found")
  | first :: rest =>
      match reducerFor reducers table (toKey (le_name first)) with
      | Some (ReducerCreate creator) =>
          foldl (replayStep reducers table) (creator (le_data first)) rest
      | _ => Throw (JsError "no create reducer for the first logged event")
      end
  end.

(** ** Vocabulary of the further properties *)

(** The statements of the lock phase. *)
Definition isRead (q : Sql) : Prop :=
  match q with
  | SqlBegin | SqlSelectForUpdate _ _ => True
  | _ => False
  end.

(** The client has received further statements, and none were lost. *)
Definition extends (w w' : World) : Prop :=
  ∃ trace, sent w' = sent w ++ trace.

(** Nothing was written and nothing was printed; the statements received
    in between only open a transaction or select rows. *)
Definition lockPhase (w w' : World) : Prop :=
  current w' = current w ∧ committed w' = committed w ∧
  console w' = console w ∧
  ∃ trace, sent w' = sent w ++ trace ∧ Forall (λ qp, isRead qp.1) trace.



(** The object that the lock phase builds from a selected row: [id]
    first, then each column assigned in order from the cells of the
    select. *)
Definition lockedRow (id : string) (names : list string) (row : Obj) : Obj :=
  foldl (λ out fi,
           aset fi.2
             (default VUndefined
                (((λ c, default VNull (aget c row)) <$> names) !! fi.1))
             out)
        [("id", VStr id)] (imap (λ index sqlField, (index, sqlField)) names).

(** The row that a field of the mutator names, as read from the store
    [s]: the first row of the field's table with the field's id. *)
Definition lockedFor (schema : SchemaType) (s : Store) (mutator : Mutator)
    (field : string) : option Value :=
  target ← aget field mutator;
  names ← namesForTable (processSchema schema) !! mt_table target;
  rows ← tables s !! mt_table target;
  row ← head (filter (λ r, hasId (mt_id target) r = true) rows);
  Some (VObj (lockedRow (mt_id target) names row)).

(** * Properties *)

(** A decidable closed proposition, settled by evaluating its decision. *)
Ltac by_evaluation := apply (bool_decide_unpack _); vm_compute; exact I.

(** ** Association lists *)

Lemma aget_akeys {V} (k : string) (o : Assoc V) (v : V) :
  aget k o = Some v → k ∈ akeys o.
Proof.
  induction o as [|[k' v'] o IH]; simpl; [done|].
  destruct (String.eqb_spec k k') as [->|_]; intros H.
  - apply list_elem_of_here.
  - apply list_elem_of_further, IH, H.
Qed.

Lemma aget_aremove {V} (k : string) (o : Assoc V) :
  aget k (aremove k o) = None.
Proof.
  unfold aremove. induction o as [|[k' v'] o IH]; [done|].
  rewrite filter_cons. case_decide as Hd; simpl in *; [|exact IH].
  destruct (String.eqb_spec k k'); [done|exact IH].
Qed.

Lemma aget_aremove_ne {V} (k k' : string) (o : Assoc V) :
  k' ≠ k → aget k' (aremove k o) = aget k' o.
Proof.
  intros Hne. unfold aremove. induction o as [|[k0 v0] o IH]; [done|].
  rewrite filter_cons. case_decide as Hd; simpl in *.
  - destruct (String.eqb_spec k' k0); [done|exact IH].
  - destruct (String.eqb_spec k k0) as [<-|]; [|done].
    destruct (String.eqb_spec k' k); [done|exact IH].
Qed.

(** ** C8: the schema compiler *)

Lemma imap_succ_seq {A} (l : list A) :
  imap (λ i _, i + 1) l = seq 1 (length l).
Proof.
  rewrite (imap_seq_0 l (λ i, i + 1)), <- fmap_S_seq.
  apply list_fmap_ext. intros; lia.
Qed.

Lemma imap_pair_seq {A} (l : list A) (j : nat) :
  imap (λ i n, (n, j + i + 1)) l = zip l (seq (j + 1) (length l)).
Proof.
  revert j. induction l as [|a l IH]; intros j; [done|].
  rewrite imap_cons. simpl. f_equal; [f_equal; lia|].
  replace (S (j + 1)) with (S j + 1) by lia.
  rewrite <- (IH (S j)). apply imap_ext. intros; simpl; f_equal; lia.
Qed.

Lemma processTable_compiles (schema : SchemaType) (info : SchemaInfo)
    (table : string) (columns : Assoc DataType) :
  table ≠ "events" → aget table schema = Some columns →
  processTable schema info table =
    mkSchemaInfo
      (<[table := compiledNames columns]> (namesForTable info))
      (<[table := compiledSelect table columns]> (selectUpdateForTable info))
      (<[table := compiledInsert table columns]> (createForTable info))
      (<[table := compiledUpdate table columns]> (updateForTable info)).
Proof.
  intros Hne Hget. unfold processTable.
  destruct (String.eqb_spec table "events"); [done|].
  rewrite Hget.
  unfold compiledNames, compiledSelect, compiledInsert, compiledUpdate.
  pose proof (imap_succ_seq (akeys columns)) as E1.
  pose proof (imap_pair_seq (akeys columns) 0) as E2.
  simpl in E1, E2. unfold akeys in *.
  rewrite length_map in E1, E2. rewrite E1, E2, length_map. reflexivity.
Qed.

Lemma processSchema_loop (schema : SchemaType) (ks : list string)
    (info : SchemaInfo) (table : string) :
  let info' := foldl (processTable schema) info ks in
  match visited schema ks table with
  | Some columns =>
      namesForTable info' !! table = Some (compiledNames columns) ∧
      selectUpdateForTable info' !! table = Some (compiledSelect table columns) ∧
      createForTable info' !! table = Some (compiledInsert table columns) ∧
      updateForTable info' !! table = Some (compiledUpdate table columns)
  | None =>
      namesForTable info' !! table = namesForTable info !! table ∧
      selectUpdateForTable info' !! table = selectUpdateForTable info !! table ∧
      createForTable info' !! table = createForTable info !! table ∧
      updateForTable info' !! table = updateForTable info !! table
  end.
Proof.
  revert info. induction ks as [|k ks IH] using rev_ind; intros info.
  - unfold visited. case_decide as H; [|done].
    destruct H as [H _]. by apply not_elem_of_nil in H.
  - rewrite foldl_snoc. cbv zeta in *. specialize (IH info).
    set (mid := foldl (processTable schema) info ks) in *.
    unfold visited in *.
    destruct (decide (table = k)) as [->|Hk].
    + destruct (decide (k = "events")) as [->|Hev].
      * rewrite decide_False in IH by naive_solver.
        rewrite decide_False by naive_solver.
        unfold processTable. simpl. exact IH.
      * rewrite (decide_True (P := k ∈ ks ++ [k] ∧ _)) by set_solver.
        destruct (aget k schema) as [columns|] eqn:Hget.
        -- rewrite (processTable_compiles _ _ _ _ Hev Hget). simpl.
           by rewrite !lookup_insert_eq.
        -- unfold processTable. rewrite Hget.
           destruct (String.eqb k "events");
             destruct (decide (k ∈ ks ∧ k ≠ "events"));
             try rewrite Hget in IH; exact IH.
    + assert (Hsame :
        namesForTable (processTable schema mid k) !! table
          = namesForTable mid !! table ∧
        selectUpdateForTable (processTable schema mid k) !! table
          = selectUpdateForTable mid !! table ∧
        createForTable (processTable schema mid k) !! table
          = createForTable mid !! table ∧
        updateForTable (processTable schema mid k) !! table
          = updateForTable mid !! table).
      { unfold processTable. destruct (String.eqb k "events"); [done|].
        destruct (aget k schema); [|done]. simpl.
        by rewrite !lookup_insert_ne. }
      destruct Hsame as (-> & -> & -> & ->).
      destruct (decide (table ∈ ks ∧ table ≠ "events")) as [Hin|Hnin].
      * rewrite decide_True by set_solver. exact IH.
      * rewrite decide_False by set_solver. exact IH.
Qed.

Lemma compiled_tables (schema : SchemaType) (table : string) :
  (∃ columns,
     namesForTable (processSchema schema) !! table
       = Some (compiledNames columns) ∧
     selectUpdateForTable (processSchema schema) !! table
       = Some (compiledSelect table columns) ∧
     createForTable (processSchema schema) !! table
       = Some (compiledInsert table columns) ∧
     updateForTable (processSchema schema) !! table
       = Some (compiledUpdate table columns)) ∨
  (namesForTable (processSchema schema) !! table = None ∧
   selectUpdateForTable (processSchema schema) !! table = None ∧
   createForTable (processSchema schema) !! table = None ∧
   updateForTable (processSchema schema) !! table = None).
Proof.
  pose proof (processSchema_loop schema (akeys schema) emptySchemaInfo table)
    as H.
  cbv zeta in H. fold (processSchema schema) in H.
  destruct (visited schema (akeys schema) table) as [columns|].
  - left. by exists columns.
  - right. exact H.
Qed.

Lemma compiled_select (schema : SchemaType) (table : string) (q : Sql) :
  selectUpdateForTable (processSchema schema) !! table = Some q →
  ∃ names, q = SqlSelectForUpdate names table.
Proof.
  destruct (compiled_tables schema table)
    as [(columns & _ & H & _)|(_ & H & _)]; rewrite H; [|done].
  intros [= <-]. by eexists.
Qed.

Lemma compiled_insert (schema : SchemaType) (table : string) (q : Sql) :
  createForTable (processSchema schema) !! table = Some q →
  ∃ names values, q = SqlInsertReturning table names values.
Proof.
  destruct (compiled_tables schema table)
    as [(columns & _ & _ & H & _)|(_ & _ & H & _)]; rewrite H; [|done].
  intros [= <-]. by eexists _, _.
Qed.

Lemma compiled_update (schema : SchemaType) (table : string) (q : Sql)
    (names : list string) :
  updateForTable (processSchema schema) !! table = Some q →
  namesForTable (processSchema schema) !! table = Some names →
  q = SqlUpdateCoalesce table (zip names (seq 1 (length names)))
        (length names + 1).
Proof.
  destruct (compiled_tables schema table)
    as [(columns & Hn & _ & _ & H)|(_ & _ & _ & H)]; rewrite H; [|done].
  rewrite Hn. intros [= <-] [= <-].
  unfold compiledUpdate, compiledNames, akeys. by rewrite length_map.
Qed.

(** C8. [processSchema] is a function of the schema alone.  It compiles
    nothing for the reserved [events] table (nor for a name the schema
    does not declare); for every other declared table it stores the
    column names in the order of the table's keys and exactly one
    statement of each kind, whose text is: a select of all columns by row
    id [$1] with [FOR UPDATE], an insert of all columns with the
    parameters [$1..$n] in column order and [RETURNING id::text], and an
    update setting the [i]-th column to [COALESCE($i, column)] with the
    row id as the last parameter [$(n+1)]. *)
Theorem processSchema_compiles_tables (schema : SchemaType) (table : string) :
  let info := processSchema schema in
  match (if decide (table = "events") then None else aget table schema) with
  | Some columns =>
      let names := akeys columns in
      let n := length names in
      namesForTable info !! table = Some names ∧
      selectUpdateForTable info !! table
        = Some (SqlSelectForUpdate names table) ∧
      createForTable info !! table
        = Some (SqlInsertReturning table names (seq 1 n)) ∧
      updateForTable info !! table
        = Some (SqlUpdateCoalesce table (zip names (seq 1 n)) (n + 1)) ∧
      sql_text <$> selectUpdateForTable info !! table =
        Some ("
      SELECT " +:+ String.concat "," names +:+ "
      FROM " +:+ table +:+ "
      WHERE id = $1::uuid FOR UPDATE
    ") ∧
      sql_text <$> createForTable info !! table =
        Some ("
      INSERT INTO " +:+ table +:+ "
      (" +:+ String.concat "," names +:+ ")
      VALUES (" +:+
           String.concat "," ((λ i : nat, "$" +:+ pretty i) <$> seq 1 n) +:+ ")
      RETURNING id::text
    ") ∧
      sql_text <$> updateForTable info !! table =
        Some ("
      UPDATE " +:+ table +:+ "
      SET " +:+
           String.concat ","
             ((λ ci : string * nat,
                 ci.1 +:+ "=COALESCE($" +:+ pretty ci.2 +:+ ", " +:+ ci.1 +:+ ")")
                <$> zip names (seq 1 n)) +:+ "
      WHERE id = $" +:+ pretty (n + 1) +:+ "::uuid
    ")
  | None =>
      namesForTable info !! table = None ∧
      selectUpdateForTable info !! table = None ∧
      createForTable info !! table = None ∧
      updateForTable info !! table = None
  end.
Proof.
  cbv zeta. unfold processSchema.
  pose proof (processSchema_loop schema (akeys schema) emptySchemaInfo table)
    as H.
  cbv zeta in H. unfold visited in H. simpl in H.
  destruct (decide (table = "events")) as [->|Hev].
  - rewrite decide_False in H by naive_solver. exact H.
  - destruct (aget table schema) as [columns|] eqn:Hget.
    + rewrite decide_True in H by (split; [eapply aget_akeys, Hget|done]).
      unfold compiledNames, compiledSelect, compiledInsert, compiledUpdate in H.
      unfold akeys in *. rewrite length_map.
      destruct H as (Hn & Hs & Hi & Hu).
      rewrite Hn, Hs, Hi, Hu. by repeat split.
    + destruct (decide (table ∈ akeys schema ∧ table ≠ "events")); exact H.
Qed.

(** The text compiled for the table [items] of the small instance. *)
Example items_statements_text :
  sql_text <$> selectUpdateForTable (processSchema Demo.schema) !! "items" =
    Some "
      SELECT name,value
      FROM items
      WHERE id = $1::uuid FOR UPDATE
    " ∧
  sql_text <$> createForTable (processSchema Demo.schema) !! "items" =
    Some "
      INSERT INTO items
      (name,value)
      VALUES ($1,$2)
      RETURNING id::text
    " ∧
  sql_text <$> updateForTable (processSchema Demo.schema) !! "items" =
    Some "
      UPDATE items
      SET name=COALESCE($1, name),value=COALESCE($2, value)
      WHERE id = $3::uuid
    ".
Proof. repeat split; by vm_compute. Qed.

(** ** C10, C4: the event factories and the synthesized planning step *)

(** C10. The factories that [createCommand] hands out for create- and
    modify-kind commands build an event named after the command whose
    payload is the input without its [table] property; the event's table
    is the command's fixed table when it declares one, whatever the input
    carries, and the input's [table] property otherwise. *)
Theorem createCommand_event_table (name : string) (fixed : option string)
    (rowId : string) (mutator : Obj → Completion Mutator)
    (validateC : Store → Obj → Obj → Completion unit)
    (validateM : Store → Obj → Obj → Completion string)
    (reg : Registry) (data_ : Obj) :
  let table_of e :=
    ev_table e = match fixed with
                 | Some t => VStr t
                 | None => default VUndefined (aget "table" data_)
                 end in
  let payload_of e :=
    ev_data e = VObj (aremove "table" data_) ∧
    aget "table" (aremove "table" data_) = None ∧
    (∀ k, k ≠ "table" → aget k (aremove "table" data_) = aget k data_) in
  match (createCommand (ArgCreate (mkCreator name mutator fixed validateC)) reg).1
  with
  | Normal (RegCreate _ event) =>
      ev_name (event data_) = name ∧
      table_of (event data_) ∧ payload_of (event data_)
  | Normal (RegModify _ _) => False
  | Normal (RegDispatch _) => False
  | Throw _ => name ∈ commandNames reg
  end ∧
  match (createCommand (ArgModify (mkUpdater name mutator fixed validateM)) reg).1
  with
  | Normal (RegModify _ event) =>
      ev_name (event rowId data_) = name ∧
      table_of (event rowId data_) ∧ payload_of (event rowId data_) ∧
      event rowId data_
        = ModificationEvent name rowId (ev_table (event rowId data_))
            (ev_data (event rowId data_))
  | Normal (RegCreate _ _) => False
  | Normal (RegDispatch _) => False
  | Throw _ => name ∈ commandNames reg
  end.
Proof.
  cbv zeta. unfold createCommand. simpl.
  destruct (decide (name ∈ commandNames reg)) as [Hin|Hnin]; simpl.
  - done.
  - unfold resolveTable.
    repeat split; try (destruct fixed; reflexivity);
      try apply aget_aremove; intros k Hk; by apply aget_aremove_ne.
Qed.

Lemma createCommand_event_table_witness :
  (let e := creatorEvent "createItem" (Some "items")
              [("name", VStr "a"); ("table", VStr "other")] in
   ev_name e = "createItem" ∧ ev_table e = VStr "items" ∧
   ev_data e = VObj [("name", VStr "a")]) ∧
  (let e := updaterEvent "rename" None "r1"
              [("table", VStr "items"); ("name", VStr "b")] in
   ev_name e = "rename" ∧ ev_table e = VStr "items" ∧
   ev_data e = VObj [("name", VStr "b")]).
Proof.
  split.
  - destruct (createCommand_event_table "createItem" (Some "items") "r1"
                (λ _, Normal []) (λ _ _ _, Normal tt) (λ _ _ _, Normal "r1")
                emptyRegistry [("name", VStr "a"); ("table", VStr "other")])
      as [(Hn & Ht & Hd & _) _].
    exact (conj Hn (conj Ht Hd)).
  - destruct (createCommand_event_table "rename" None "r1"
                (λ _, Normal []) (λ _ _ _, Normal tt) (λ _ _ _, Normal "r1")
                emptyRegistry [("table", VStr "items"); ("name", VStr "b")])
      as [_ (Hn & Ht & (Hd & _) & _)].
    exact (conj Hn (conj Ht Hd)).
Defined.

(** C4. The [planActions] synthesized for a create-kind command calls
    [validate] on its three arguments; when [validate] returns, the plan
    is the single creation event named after the command, carrying the
    input without its [table] property and the table resolved from the
    command's fixed table or else the input's [table] property; when
    [validate] throws, the same failure is the outcome of planning and no
    event is produced. *)
Theorem createCommand_create_planActions (c : CreatorCommand) (reg : Registry)
    (client : Store) (input lockedRows : Obj) :
  cc_name c ∉ commandNames reg →
  ∃ command event reg',
    createCommand (ArgCreate c) reg = (Normal (RegCreate command event), reg') ∧
    name command = cc_name c ∧
    planActions command client input lockedRows =
      match cc_validate c client input lockedRows with
      | Normal _ =>
          Normal [Some (CreationEvent (cc_name c)
                          match cc_table c with
                          | Some t => VStr t
                          | None => default VUndefined (aget "table" input)
                          end
                          (VObj (aremove "table" input)))]
      | Throw e => Throw e
      end.
Proof.
  intros Hfresh. unfold createCommand. simpl.
  rewrite decide_False by done.
  eexists _, _, _. split; [reflexivity|]. split; [reflexivity|].
  simpl. unfold creatorPlanActions, creatorEvent, resolveTable.
  destruct (cc_validate c client input lockedRows); [|done].
  by destruct (cc_table c).
Qed.

Lemma createCommand_create_planActions_witness :
  ∃ command event reg',
    createCommand Demo.createItemArg emptyRegistry
      = (Normal (RegCreate command event), reg') ∧
    name command = "createItem" ∧
    planActions command Demo.emptyStore
        [("name", VStr "a"); ("table", VStr "other")] []
      = Normal [Some (CreationEvent "createItem" (VStr "items")
                        (VObj [("name", VStr "a")]))].
Proof.
  apply (createCommand_create_planActions
           (mkCreator "createItem" (λ _, Normal []) (Some "items")
              (λ _ _ _, Normal tt))
           emptyRegistry Demo.emptyStore
           [("name", VStr "a"); ("table", VStr "other")] []).
  by_evaluation.
Defined.

(** ** C7: uniqueness of registrations *)

Lemma reducerFor_insert (rs : gmap string (gmap string Reducer))
    (table name : string) (r : Reducer) (hs : gmap string Reducer) :
  reducerFor (<[table := <[name := r]> hs]> rs) table name = Some r.
Proof. unfold reducerFor. by rewrite lookup_insert_eq; simpl; rewrite lookup_insert_eq. Qed.

(** C7. Once a command has been registered under a name, registering a
    second command under that name throws [Duplicate command name ...] and
    leaves the registry as it was; once a reducer has been registered for
    a table and an event name, registering a second one for that pair
    throws [Duplicate event handler for table], and the first reducer is
    still the one registered for the pair. *)
Theorem duplicate_registration_fails :
  (∀ (I1 I2 : Type) (c1 : CommandArg I1) (c2 : CommandArg I2)
     (reg reg1 : Registry) (r1 : Registered I1),
     argName c2 = argName c1 →
     createCommand c1 reg = (Normal r1, reg1) →
     argName c1 ∈ commandNames reg1 ∧
     createCommand c2 reg1
       = (Throw (JsError ("Duplicate command name " +:+ argName c1)), reg1)) ∧
  (∀ (table name : string) (first second : Reducer) (reg reg1 : Registry),
     addReducer table name first reg = (Normal tt, reg1) →
     reducerFor (reducers reg1) table name = Some first ∧
     ∃ reg2,
       addReducer table name second reg1
         = (Throw (JsError "Duplicate event handler for table"), reg2) ∧
       reducers reg2 = reducers reg1 ∧
       commandNames reg2 = commandNames reg1).
Proof.
  split.
  - intros I1 I2 c1 c2 reg reg1 r1 Hname H1.
    unfold createCommand in *. rewrite Hname.
    destruct (decide (argName c1 ∈ commandNames reg)); [done|].
    injection H1 as _ <-.
    assert (Hin : argName c1 ∈
                    commandNames
                      (mkRegistry (reducers reg)
                         ({[argName c1]} ∪ ownCommandNames reg) (printed reg)))
      by (unfold commandNames; simpl; set_solver).
    split; [exact Hin|]. by rewrite decide_True.
  - intros table name first second reg reg1 H1.
    unfold addReducer in H1.
    destruct (decide _) as [|Hfree] in H1; [done|].
    injection H1 as <-. simpl.
    split; [apply reducerFor_insert|].
    unfold addReducer. simpl. rewrite lookup_insert_eq.
    rewrite decide_True by (left; by rewrite reducerFor_insert).
    eexists. split; [reflexivity|]. done.
Qed.

Lemma duplicate_registration_fails_witness :
  (createCommand Demo.bumpArg (createCommand Demo.bumpArg emptyRegistry).2).1
    = Throw (JsError "Duplicate command name bump") ∧
  reducerFor
    (reducers (creator "items" "createItem" Demo.itemCreator emptyRegistry).2)
    "items" "createItem" = Some (ReducerCreate Demo.itemCreator) ∧
  (updater "items" "createItem" Demo.bumpUpdater
     (creator "items" "createItem" Demo.itemCreator emptyRegistry).2).1
    = Throw (JsError "Duplicate event handler for table").
Proof.
  destruct duplicate_registration_fails as [Hc Hr].
  destruct (Hc Obj Obj Demo.bumpArg Demo.bumpArg emptyRegistry
              (createCommand Demo.bumpArg emptyRegistry).2
              (RegModify Demo.bump (updaterEvent "bump" (Some "items"))))
    as [_ H2]; [reflexivity|reflexivity|].
  destruct (Hr "items" "createItem" (ReducerCreate Demo.itemCreator)
              (ReducerModify Demo.bumpUpdater) emptyRegistry
              (creator "items" "createItem" Demo.itemCreator emptyRegistry).2)
    as [H3 [reg2 [H4 _]]]; [reflexivity|].
  split; [by rewrite H2|]. split; [exact H3|].
  unfold updater. by rewrite H4.
Defined.

(** ** The monad *)

Lemma bind_inv {A B} (c : M A) (k : A → M B) (w w' : World)
    (r : Completion B) :
  bind c k w = (r, w') →
  (∃ a w1, c w = (Normal a, w1) ∧ k a w1 = (r, w')) ∨
  (∃ e, c w = (Throw e, w') ∧ r = Throw e).
Proof.
  unfold bind. destruct (c w) as [[a|e] w1]; intros H.
  - left. by exists a, w1.
  - right. exists e. by injection H as <- <-.
Qed.

Lemma bind_inv_normal {A B} (c : M A) (k : A → M B) (w w' : World) (b : B) :
  bind c k w = (Normal b, w') →
  ∃ a w1, c w = (Normal a, w1) ∧ k a w1 = (Normal b, w').
Proof.
  intros H. apply bind_inv in H as [H|[e [_ H]]]; [exact H|done].
Qed.

Lemma bind_normal {A B} (c : M A) (k : A → M B) (w w1 : World) (a : A) :
  c w = (Normal a, w1) → bind c k w = k a w1.
Proof. intros H. unfold bind. by rewrite H. Qed.

Lemma bind_throw {A B} (c : M A) (k : A → M B) (w w1 : World) (e : Error) :
  c w = (Throw e, w1) → bind c k w = (Throw e, w1).
Proof. intros H. unfold bind. by rewrite H. Qed.

Lemma foldM_cons {A B} (f : A → B → M A) (a : A) (b : B) (l : list B)
    (w : World) :
  foldM f a (b :: l) w = bind (f a b) (λ a', foldM f a' l) w.
Proof. reflexivity. Qed.

Lemma foldM_app {A B} (f : A → B → M A) (a : A) (l1 l2 : list B) (w : World) :
  foldM f a (l1 ++ l2) w = bind (foldM f a l1) (λ a', foldM f a' l2) w.
Proof.
  revert a w. induction l1 as [|b l1 IH]; intros a w; simpl.
  - reflexivity.
  - unfold bind in *. destruct (f a b w) as [[a'|e] w1]; [apply IH|done].
Qed.

Section Preserved.
Variable P : World → World → Prop.
Hypothesis P_refl : ∀ w, P w w.
Hypothesis P_trans : ∀ a b c, P a b → P b c → P a c.
Hypothesis P_console :
  ∀ w l, P w (mkWorld (committed w) (working w) (sent w)
                (console w ++ [l])).

Lemma preserved_ret {A} (a : A) : preserved P (ret a).
Proof. intros w r w' [= <- <-]. apply P_refl. Qed.

Lemma preserved_throw {A} (e : Error) : preserved P (@throw A e).
Proof. intros w r w' [= <- <-]. apply P_refl. Qed.

Lemma preserved_liftRead {A} (c : Store → Completion A) :
  preserved P (liftRead c).
Proof. intros w r w' [= <- <-]. apply P_refl. Qed.

Lemma preserved_consoleLog (l : LogLine) : preserved P (consoleLog l).
Proof. intros w r w' [= <- <-]. apply P_console. Qed.

Lemma preserved_bind {A B} (c : M A) (k : A → M B) :
  preserved P c → (∀ a, preserved P (k a)) → preserved P (bind c k).
Proof.
  intros Hc Hk w r w' H.
  apply bind_inv in H as [(a & w1 & H1 & H2)|(e & H1 & _)].
  - eapply P_trans; [eapply Hc, H1|eapply Hk, H2].
  - eapply Hc, H1.
Qed.

Lemma preserved_foldM {A B} (f : A → B → M A) (a : A) (l : list B) :
  (∀ a b, preserved P (f a b)) → preserved P (foldM f a l).
Proof.
  intros Hf. revert a. induction l as [|b l IH]; intros a; simpl.
  - apply preserved_ret.
  - apply preserved_bind; [apply Hf|apply IH].
Qed.

Lemma preserved_bind_defined {A B} (what : string) (x : option A)
    (k : A → M B) :
  (∀ a, x = Some a → preserved P (k a)) →
  preserved P (bind (defined what x) k).
Proof.
  intros Hk. destruct x as [a|]; simpl.
  - intros w r w' H. unfold bind, ret in H. eapply Hk; [done|exact H].
  - intros w r w' H. unfold bind, throw in H. injection H as _ <-.
    apply P_refl.
Qed.

Lemma preserved_bind_lift {A B} (c : Completion A) (k : A → M B) :
  (∀ a, c = Normal a → preserved P (k a)) →
  preserved P (bind (lift c) k).
Proof.
  intros Hk. destruct c as [a|e]; simpl.
  - intros w r w' H. unfold bind, lift in H. eapply Hk; [done|exact H].
  - intros w r w' H. unfold bind, lift in H. injection H as _ <-.
    apply P_refl.
Qed.

Variable oracle : Oracle.
Variable schema : SchemaType.
Variable reducers : gmap string (gmap string Reducer).

Hypothesis P_select :
  ∀ names table params,
    preserved P (query oracle (SqlSelectForUpdate names table) params).

Lemma preserved_lockRows (mutator : Mutator) :
  preserved P (lockRows oracle schema mutator).
Proof.
  apply preserved_foldM. intros acc field. unfold lockRow.
  destruct (aget field mutator) as [target|]; [|apply preserved_ret].
  apply preserved_bind_defined. intros q Hq.
  apply compiled_select in Hq as [names ->].
  apply preserved_bind; [apply P_select|]. intros [|data rows].
  - apply preserved_ret.
  - apply preserved_bind_defined. intros names' _. apply preserved_ret.
Qed.

Hypothesis P_data :
  ∀ q params, isData q → preserved P (query oracle q params).

Lemma preserved_applyCreate (actorId now : Value)
    (creator : Value → Completion Value) (eventName : string)
    (table data : Value) :
  preserved P (applyCreate oracle schema actorId now creator eventName
                 table data).
Proof.
  unfold applyCreate.
  apply preserved_bind_lift. intros data' _.
  apply preserved_bind_defined. intros names _.
  apply preserved_bind_lift. intros rowData _.
  apply preserved_bind_defined. intros q Hq.
  apply compiled_insert in Hq as (ns & vs & ->).
  apply preserved_bind; [by apply P_data|]. intros rows.
  destruct (firstCell rows); try apply preserved_throw.
  apply preserved_bind; [by apply P_data|]. intros _. apply preserved_ret.
Qed.

Lemma preserved_applyModify (actorId now : Value)
    (updater : Value → Value → Completion Value) (selectedObjects : Obj)
    (eventName rowId : string) (table data : Value) :
  preserved P (applyModify oracle schema actorId now updater selectedObjects
                 eventName rowId table data).
Proof.
  unfold applyModify.
  destruct (cached rowId selectedObjects) as [prev|]; [|apply preserved_throw].
  apply preserved_bind_lift. intros data' _.
  apply preserved_bind_defined. intros names Hn.
  apply preserved_bind_lift. intros rowData _.
  apply preserved_bind_defined. intros q Hq.
  rewrite (compiled_update _ _ _ _ Hq Hn).
  apply preserved_bind; [by apply P_data|]. intros _.
  apply preserved_bind; [by apply P_data|]. intros _. apply preserved_ret.
Qed.

Lemma preserved_applyEvent (actorId now : Value) (selectedObjects : Obj)
    (event : option ESEvent) :
  preserved P (applyEvent oracle schema reducers actorId now selectedObjects
                 event).
Proof.
  unfold applyEvent. destruct event as [event|]; [|apply preserved_ret].
  destruct (String.eqb (ev_name event) "").
  { apply preserved_bind; [apply preserved_consoleLog|].
    intros _. apply preserved_ret. }
  destruct (reducerFor _ _ _) as [[creator|updater]|];
    [| |apply preserved_ret]; destruct event;
    try (apply preserved_bind; [apply preserved_consoleLog|];
         intros _; apply preserved_ret).
  - apply preserved_bind; [apply preserved_applyCreate|].
    intros _. apply preserved_ret.
  - apply preserved_applyModify.
Qed.

Lemma preserved_applyEvents (actorId now : Value) (selectedObjects : Obj)
    (events : list (option ESEvent)) :
  preserved P (applyEvents oracle schema reducers actorId now selectedObjects
                 events).
Proof. apply preserved_foldM. intros. apply preserved_applyEvent. Qed.
End Preserved.

(** ** The client *)

Lemma stable_refl (w : World) : stable w w.
Proof. by intros H. Qed.

Lemma stable_trans (a b c : World) : stable a b → stable b c → stable a c.
Proof.
  intros Hab Hbc Ha. destruct (Hab Ha) as [E1 Hb].
  destruct (Hbc Hb) as [E2 Hc]. split; [congruence|done].
Qed.

Lemma stable_console (w : World) (l : LogLine) :
  stable w (mkWorld (committed w) (working w) (sent w) (console w ++ [l])).
Proof. by intros H. Qed.

Lemma sameData_refl (w : World) : sameData w w.
Proof. by repeat split. Qed.

Lemma sameData_trans (a b c : World) :
  sameData a b → sameData b c → sameData a c.
Proof.
  intros (E1 & E2 & H1) (E3 & E4 & H2).
  repeat split; [congruence|congruence|]. intros H. by apply H2, H1.
Qed.

Lemma current_setCurrent (s : Store) (w : World) : current (setCurrent s w) = s.
Proof. unfold current, setCurrent. by destruct (working w). Qed.

Ltac destruct_exec r s :=
  cbv beta iota;
  match goal with
  | |- context [exec ?o ?n ?q ?ps ?st] => destruct (exec o n q ps st) as [r s]
  end.

Lemma query_throw_committed (o : Oracle) (q : Sql) (params : list Value)
    (w w' : World) (e : Error) :
  q = SqlBegin ∨ q = SqlCommit ∨ q = SqlRollback →
  query o q params w = (Throw e, w') →
  w' = tick q params w.
Proof.
  unfold query. destruct (fails o (length (sent w)) q).
  { by intros _ [= <- <-]. }
  by intros [->|[->| ->]].
Qed.

Lemma query_data (o : Oracle) (q : Sql) (params : list Value) (w w' : World)
    (rows : list (list Value)) :
  isData q →
  query o q params w = (Normal rows, w') →
  fails o (length (sent w)) q = false ∧
  ∃ s', exec o (length (sent w)) q params (current w) = (Normal rows, s') ∧
        w' = setCurrent s' (tick q params w).
Proof.
  intros Hq. unfold query.
  destruct (fails o (length (sent w)) q); [done|].
  replace (current (tick q params w)) with (current w) by done.
  destruct q; try done;
    destruct_exec r' s'; intros [= -> <-];
    (split; [done|]); by exists s'.
Qed.

Lemma query_data_stable (o : Oracle) (q : Sql) (params : list Value) :
  isData q → preserved stable (query o q params).
Proof.
  intros Hq w r w'. unfold query.
  destruct (fails o (length (sent w)) q).
  { by intros [= <- <-]. }
  destruct q; try done;
    destruct_exec r' s'; intros [= <- <-] [s0 Hs0];
    unfold setCurrent, tick; simpl; rewrite Hs0; simpl; by eauto.
Qed.

Lemma query_select_sameData (o : Oracle) (names : list string)
    (table : string) (params : list Value) :
  preserved sameData (query o (SqlSelectForUpdate names table) params).
Proof.
  intros w r w'. unfold query.
  destruct (fails o (length (sent w)) (SqlSelectForUpdate names table)).
  { by intros [= <- <-]. }
  replace (current (tick (SqlSelectForUpdate names table) params w))
    with (current w) by done.
  assert (Hs : (exec o (length (sent w)) (SqlSelectForUpdate names table)
                  params (current w)).2 = current w).
  { simpl. destruct (tables (current w) !! table); [|done].
    by destruct (param params 1). }
  destruct_exec r' s'. simpl in Hs. subst s'.
  intros [= <- <-]. unfold sameData, setCurrent, tick, current. simpl.
  destruct (working w); simpl; by eauto.
Qed.

Lemma query_begin (o : Oracle) (w w' : World) (rows : list (list Value)) :
  query o SqlBegin [] w = (Normal rows, w') →
  is_Some (working w') ∧ sameData w w'.
Proof.
  unfold query. destruct (fails o (length (sent w)) SqlBegin); [done|].
  intros [= _ <-]. unfold sameData, current, tick. simpl.
  destruct (working w) eqn:E; simpl; rewrite ?E; simpl; by eauto.
Qed.

Lemma query_commit (o : Oracle) (w w' : World) (rows : list (list Value)) :
  query o SqlCommit [] w = (Normal rows, w') →
  committed w' = current w ∧ working w' = None ∧
  console w' = console w ∧ sent w' = sent w ++ [(SqlCommit, [])].
Proof.
  unfold query. destruct (fails o (length (sent w)) SqlCommit); [done|].
  intros [= _ <-]. unfold current, tick. simpl.
  by destruct (working w) eqn:E; simpl; rewrite ?E.
Qed.

Lemma query_rollback (o : Oracle) (w : World) :
  query o SqlRollback [] w =
    if fails o (length (sent w)) SqlRollback
    then (Throw (DbError (length (sent w))), tick SqlRollback [] w)
    else (Normal [], mkWorld (committed w) None (sent w ++ [(SqlRollback, [])])
                       (console w)).
Proof. unfold query. by destruct (fails _ _ _). Qed.

(** ** The shape of [runCommand] *)

Section RunCommand.
Context {Input : Type}.
Variable oracle : Oracle.
Variable schema : SchemaType.
Variable reducers : gmap string (gmap string Reducer).
Variable command : DispatchCommand Input.
Variable input : Input.
Variable actorId : string.
Variable now : Value.

Lemma runCommandBody_decompose (w : World) :
  runCommandBody oracle schema reducers command input actorId now w =
  bind (lockAndPlan oracle schema command input)
    (λ p, applyEvents oracle schema reducers (VStr actorId) now p.1 p.2 ;;
          query oracle SqlCommit [] ;;
          ret tt) w.
Proof.
  unfold runCommandBody, lockAndPlan, bind, lift, liftRead, ret.
  destruct (query oracle SqlBegin [] w) as [[?|?] w1]; [|done].
  destruct (mutator command input); [|done].
  destruct (lockRows oracle schema a0 w1) as [[locked|?] w2]; [|done].
  by destruct (planActions command (current w2) input locked.2).
Qed.

Lemma runCommand_unfold (w : World) :
  runCommand oracle schema reducers command input actorId now w =
  match runCommandBody oracle schema reducers command input actorId now w with
  | (Normal a, w1) => (Normal a, w1)
  | (Throw e, w1) =>
      if fails oracle (length (sent w1)) SqlRollback
      then (Throw (DbError (length (sent w1))),
            mkWorld (committed w1) (working w1)
              (sent w1 ++ [(SqlRollback, [])]) (console w1 ++ [LogFailed e]))
      else (Normal tt,
            mkWorld (committed w1) None
              (sent w1 ++ [(SqlRollback, [])]) (console w1 ++ [LogFailed e]))
  end.
Proof.
  unfold runCommand, tryCatch.
  destruct (runCommandBody _ _ _ _ _ _ _ w) as [[a|e] w1]; [done|].
  unfold bind, consoleLog. rewrite query_rollback. simpl.
  by destruct (fails oracle (length (sent w1)) SqlRollback).
Qed.

Lemma query_begin_sameData : preserved sameData (query oracle SqlBegin []).
Proof.
  intros w [rows|e] w' H.
  - apply query_begin in H. apply H.
  - apply query_throw_committed in H as ->; [|by left].
    by repeat split.
Qed.

Lemma afterBegin_sameData :
  preserved sameData
    (mutator <- lift (mutator command input) ;;
     locked <- lockRows oracle schema mutator ;;
     events <- liftRead (λ client, planActions command client input locked.2) ;;
     ret (locked.1, events)).
Proof.
  apply (preserved_bind_lift sameData sameData_refl). intros m _.
  apply (preserved_bind sameData sameData_trans).
  { apply (preserved_lockRows sameData sameData_refl sameData_trans).
    apply query_select_sameData. }
  intros locked.
  apply (preserved_bind sameData sameData_trans).
  { apply (preserved_liftRead sameData sameData_refl). }
  intros events. apply (preserved_ret sameData sameData_refl).
Qed.

Lemma lockAndPlan_sameData :
  preserved sameData (lockAndPlan oracle schema command input).
Proof.
  unfold lockAndPlan.
  apply (preserved_bind sameData sameData_trans).
  - apply query_begin_sameData.
  - intros ?. apply afterBegin_sameData.
Qed.

Lemma lockAndPlan_open (w w0 : World) (p : Obj * list (option ESEvent)) :
  lockAndPlan oracle schema command input w = (Normal p, w0) →
  is_Some (working w0).
Proof.
  unfold lockAndPlan. intros H.
  apply bind_inv_normal in H as (rows & w1 & Hb & H).
  apply query_begin in Hb as [Hopen _].
  apply afterBegin_sameData in H as (_ & _ & H). by apply H.
Qed.

Lemma applyEvents_stable (selectedObjects : Obj)
    (events : list (option ESEvent)) :
  preserved stable
    (applyEvents oracle schema reducers (VStr actorId) now selectedObjects
       events).
Proof.
  apply (preserved_applyEvents stable stable_refl stable_trans stable_console).
  intros q params Hq. by apply query_data_stable.
Qed.

(** Whatever makes the [try] block throw, nothing has been committed. *)
Lemma runCommandBody_throw (w w1 : World) (e : Error) :
  runCommandBody oracle schema reducers command input actorId now w
    = (Throw e, w1) →
  committed w1 = committed w.
Proof.
  rewrite runCommandBody_decompose. intros H.
  apply bind_inv in H as [(p & w0 & Hp & H)|(e' & Hp & _)].
  - pose proof (lockAndPlan_open _ _ _ Hp) as Hopen.
    apply lockAndPlan_sameData in Hp as (_ & Ec & _).
    apply bind_inv in H as [(sel & w2 & Ha & H)|(e' & Ha & _)].
    + apply applyEvents_stable in Ha. destruct (Ha Hopen) as [E2 _].
      apply bind_inv in H as [(rows & w3 & _ & H)|(e' & Hc & _)].
      * done.
      * apply query_throw_committed in Hc as ->; [|by right; left].
        simpl. congruence.
    + apply applyEvents_stable in Ha. destruct (Ha Hopen) as [E2 _].
      congruence.
  - by apply lockAndPlan_sameData in Hp as (_ & Ec & _).
Qed.
(** What a committing run went through. *)
Lemma runCommand_commits_inv (w w' : World) :
  runCommand oracle schema reducers command input actorId now w
    = (Normal tt, w') →
  last (sent w') = Some (SqlCommit, []) →
  ∃ selected planned w0 selected' w1,
    lockAndPlan oracle schema command input w
      = (Normal (selected, planned), w0) ∧
    applyEvents oracle schema reducers (VStr actorId) now selected planned w0
      = (Normal selected', w1) ∧
    current w0 = current w ∧
    committed w' = current w1 ∧
    working w' = None.
Proof.
  intros Hrun Hlast. rewrite runCommand_unfold in Hrun.
  destruct (runCommandBody oracle schema reducers command input actorId now w)
    as [[[]|e] w1] eqn:Hbody.
  2:{ destruct (fails oracle (length (sent w1)) SqlRollback); [done|].
      injection Hrun as <-. simpl in Hlast. by rewrite last_snoc in Hlast. }
  injection Hrun as ->.
  rewrite runCommandBody_decompose in Hbody.
  apply bind_inv_normal in Hbody as ([sel planned] & w0 & Hplan & H).
  simpl in H.
  apply bind_inv_normal in H as (sel' & w2 & Happly & H).
  apply bind_inv_normal in H as (rows & w3 & Hc & [= <-]).
  apply query_commit in Hc as (Hc & Hw & _).
  exists sel, planned, w0, sel', w2.
  split; [exact Hplan|]. split; [exact Happly|].
  by apply lockAndPlan_sameData in Hplan as (Ecur & _ & _).
Qed.

Lemma lockAndPlan_planned (w w0 : World) (selected : Obj)
    (planned : list (option ESEvent)) :
  lockAndPlan oracle schema command input w
    = (Normal (selected, planned), w0) →
  ∃ client locked, planActions command client input locked = Normal planned.
Proof.
  unfold lockAndPlan. intros H.
  apply bind_inv_normal in H as (rows & w1 & _ & H).
  apply bind_inv_normal in H as (m & w2 & _ & H).
  apply bind_inv_normal in H as (locked & w3 & _ & H).
  apply bind_inv_normal in H as (events0 & w4 & Hp & H).
  injection H as _ <- _. unfold liftRead in Hp. injection Hp as Hp _.
  by eexists _, _.
Qed.
End RunCommand.

(** ** C5: the outermost catch *)

(** C5 as amended.  Every failure raised by the [try] block is caught: it
    is printed to the console, a [rollback] is sent, and nothing of the
    call is committed, whatever the client does.  When the client accepts
    that [rollback], [runCommand] completes normally with the same empty
    result whether the block committed or threw; the last statement it
    sent is [commit] in the first case and [rollback] in the second.
    When the client rejects the [rollback], that failure is not caught:
    it is what the caller gets. *)
Theorem runCommand_catches_failures {Input : Type} (oracle : Oracle)
    (schema : SchemaType) (reducers : gmap string (gmap string Reducer))
    (command : DispatchCommand Input) (input : Input) (actorId : string)
    (now : Value) (w : World) :
  let result := runCommand oracle schema reducers command input actorId now w in
  match runCommandBody oracle schema reducers command input actorId now w with
  | (Normal _, w1) =>
      result = (Normal tt, w1) ∧
      last (sent w1) = Some (SqlCommit, [])
  | (Throw e, w1) =>
      committed result.2 = committed w ∧
      sent result.2 = sent w1 ++ [(SqlRollback, [])] ∧
      console result.2 = console w1 ++ [LogFailed e] ∧
      if fails oracle (length (sent w1)) SqlRollback
      then result.1 = Throw (DbError (length (sent w1)))
      else result.1 = Normal tt ∧ working result.2 = None
  end.
Proof.
  cbv zeta. rewrite runCommand_unfold.
  destruct (runCommandBody _ _ _ _ _ _ _ w) as [[[]|e] w1] eqn:Hbody.
  - split; [done|].
    rewrite runCommandBody_decompose in Hbody.
    apply bind_inv_normal in Hbody as (p & w0 & _ & H).
    apply bind_inv_normal in H as (sel & w2 & _ & H).
    apply bind_inv_normal in H as (rows & w3 & Hc & [= <-]).
    apply query_commit in Hc as (_ & _ & _ & ->). apply last_snoc.
  - pose proof (runCommandBody_throw _ _ _ _ _ _ _ _ _ _ Hbody) as Ec.
    destruct (fails oracle (length (sent w1)) SqlRollback); simpl;
      by rewrite Ec.
Qed.

Lemma runCommand_catches_failures_witness :
  let result := Demo.run Demo.flaky Demo.createItem [] Demo.world0 in
  committed result.2 = Demo.emptyStore ∧
  sent result.2 = [(SqlBegin, []); (SqlRollback, [])] ∧
  console result.2 = [LogFailed (DbError 0)] ∧
  result.1 = Normal tt ∧ working result.2 = None.
Proof.
  pose proof (runCommand_catches_failures Demo.flaky Demo.schema
                (reducers Demo.registry) Demo.createItem [] "actor" (VNum 0)
                Demo.world0) as H.
  cbv zeta in H.
  destruct (runCommandBody Demo.flaky Demo.schema (reducers Demo.registry)
              Demo.createItem [] "actor" (VNum 0) Demo.world0)
    as [[[]|e] w1] eqn:Hbody.
  - vm_compute in Hbody. discriminate.
  - vm_compute in Hbody. injection Hbody as <- <-. exact H.
Defined.

(** The claim as stated fails on a connection that rejects every
    statement: the failure of [begin] is caught, the [rollback] sent by
    the handler fails in turn, and that failure reaches the caller. *)
Lemma runCommand_can_raise :
  (Demo.run Demo.dead Demo.createItem [] Demo.world0).1 = Throw (DbError 1).
Proof. reflexivity. Qed.

(** ** C2: fatal failures while applying events *)

Lemma fatalAt_throws (oracle : Oracle) (schema : SchemaType)
    (reducers : gmap string (gmap string Reducer)) (actorId now : Value)
    (selectedObjects : Obj) (w : World) (event : ESEvent) (message : string) :
  fatalAt oracle schema reducers selectedObjects w event message →
  ∃ w', applyEvent oracle schema reducers actorId now selectedObjects
          (Some event) w = (Throw (JsError message), w').
Proof.
  intros [Hname H]. unfold applyEvent.
  destruct (String.eqb_spec (ev_name event) ""); [done|].
  destruct event as [eventName table data|eventName rowId table data]; simpl in *.
  - destruct H as (creator & row & names & rowData & q & rows & w' &
                   -> & Hc & Hn & Hp & Hq & Hins & Hid & ->).
    exists w'. unfold applyCreate, bind, lift, defined, ret, throw.
    rewrite Hc, Hn, Hp, Hq, Hins.
    destruct (firstCell rows) eqn:E; try done. by destruct (Hid s).
  - destruct H as ([updater ->] & Hsel & ->).
    exists w. unfold applyModify. by rewrite Hsel.
Qed.

(** When the loop over the planned events reaches a create event whose
    insert returns no usable row identifier, or a modify event for whose
    row id the cache yields nothing (the id names neither a row locked
    for the mutator nor a member of [Object.prototype], the prototype of
    the cache), the [try] block throws and [runCommand] sends [rollback]:
    the committed store after the call is the committed store before it,
    so no row mutation and no event-log entry of the call is persisted;
    once the [rollback] is accepted no transaction is left open and the
    call completes normally. *)
Theorem runCommand_fatal_apply_rolls_back {Input : Type} (oracle : Oracle)
    (schema : SchemaType) (reducers : gmap string (gmap string Reducer))
    (command : DispatchCommand Input) (input : Input) (actorId : string)
    (now : Value) (w w0 w1 : World) (selected0 selected : Obj)
    (pre post : list (option ESEvent)) (event : ESEvent) (message : string) :
  lockAndPlan oracle schema command input w
    = (Normal (selected0, pre ++ Some event :: post), w0) →
  applyEvents oracle schema reducers (VStr actorId) now selected0 pre w0
    = (Normal selected, w1) →
  plainCache selected →
  fatalAt oracle schema reducers selected w1 event message →
  (message = failedId ∨ message = notRequested) ∧
  ∃ w2,
    runCommandBody oracle schema reducers command input actorId now w
      = (Throw (JsError message), w2) ∧
    let result := runCommand oracle schema reducers command input actorId now w
    in
    committed result.2 = committed w ∧
    sent result.2 = sent w2 ++ [(SqlRollback, [])] ∧
    console result.2 = console w2 ++ [LogFailed (JsError message)] ∧
    (fails oracle (length (sent w2)) SqlRollback = false →
     result.1 = Normal tt ∧ working result.2 = None).
Proof.
  intros Hplan Hpre _ Hfatal. split.
  { destruct Hfatal as [_ H]. destruct event.
    - destruct H as (? & ? & ? & ? & ? & ? & ? & H). left. apply H.
    - right. apply H. }
  apply (fatalAt_throws _ _ _ (VStr actorId) now) in Hfatal as [w2 Hthrow].
  exists w2.
  assert (Hbody :
    runCommandBody oracle schema reducers command input actorId now w
      = (Throw (JsError message), w2)).
  { rewrite runCommandBody_decompose.
    rewrite (bind_normal _ _ _ _ _ Hplan). simpl.
    apply bind_throw. unfold applyEvents. rewrite foldM_app.
    rewrite (bind_normal _ _ _ _ _ Hpre). simpl.
    by apply bind_throw. }
  split; [exact Hbody|]. cbv zeta.
  rewrite runCommand_unfold, Hbody.
  pose proof (runCommandBody_throw _ _ _ _ _ _ _ _ _ _ Hbody) as Ec.
  destruct (fails oracle (length (sent w2)) SqlRollback); simpl; by eauto.
Qed.

Lemma runCommand_fatal_apply_rolls_back_witness :
  committed (Demo.run Demo.healthy Demo.bump [("id", VStr "r2")] Demo.world5).2
    = Demo.store5 ∧
  committed
    (Demo.run Demo.noIds Demo.createItem [("name", VStr "a")] Demo.world0).2
    = Demo.emptyStore.
Proof.
  split.
  - destruct (runCommand_fatal_apply_rolls_back Demo.healthy Demo.schema
                (reducers Demo.registry) Demo.bump [("id", VStr "r2")]
                "actor" (VNum 0) Demo.world5
                (lockAndPlan Demo.healthy Demo.schema Demo.bump
                   [("id", VStr "r2")] Demo.world5).2
                (lockAndPlan Demo.healthy Demo.schema Demo.bump
                   [("id", VStr "r2")] Demo.world5).2
                [] [] [] []
                (ModificationEvent "bump" "r2" (VStr "items")
                   (VObj [("id", VStr "r2")]))
                notRequested)
      as (_ & w2 & _ & H & _).
    + reflexivity.
    + reflexivity.
    + reflexivity.
    + split; [discriminate|]. split; [|split; reflexivity].
      eexists. reflexivity.
    + exact H.
  - destruct (runCommand_fatal_apply_rolls_back Demo.noIds Demo.schema
                (reducers Demo.registry) Demo.createItem [("name", VStr "a")]
                "actor" (VNum 0) Demo.world0
                (lockAndPlan Demo.noIds Demo.schema Demo.createItem
                   [("name", VStr "a")] Demo.world0).2
                (lockAndPlan Demo.noIds Demo.schema Demo.createItem
                   [("name", VStr "a")] Demo.world0).2
                [] [] [] []
                (CreationEvent "createItem" (VStr "items")
                   (VObj [("name", VStr "a")]))
                failedId)
      as (_ & w2 & _ & H & _).
    + reflexivity.
    + reflexivity.
    + reflexivity.
    + split; [discriminate|].
      eexists _, _, _, _, _, _, _.
      split; [reflexivity|]. split; [reflexivity|]. split; [reflexivity|].
      split; [reflexivity|]. split; [reflexivity|]. split; [reflexivity|].
      split; [intros id; discriminate|reflexivity].
    + exact H.
Defined.


(** ** C6: events without a reducer *)





(** ** The two branches that write *)

Lemma exec_insert (o : Oracle) (n : nat) (table : string)
    (names : list string) (values : list nat) (params : list Value)
    (s s' : Store) (rows : list (list Value)) :
  exec o n (SqlInsertReturning table names values) params s = (Normal rows, s') →
  events s' = events s.
Proof.
  simpl. destruct (tables s !! table); [|done]. by intros [= _ <-].
Qed.

Lemma exec_update (o : Oracle) (n : nat) (table : string)
    (sets : list (string * nat)) (idParam : nat) (params : list Value)
    (s s' : Store) (rows : list (list Value)) :
  exec o n (SqlUpdateCoalesce table sets idParam) params s = (Normal rows, s') →
  events s' = events s ∧
  ∃ old,
    tables s !! table = Some old ∧
    ((∃ id, param params idParam = VStr id ∧
            tables s' =
              <[table := (λ row, if hasId id row
                                 then updateRow sets params row else row)
                         <$> old]> (tables s)) ∨
     (param params idParam = VNull ∧ s' = s)).
Proof.
  simpl. destruct (tables s !! table) as [old|]; [|done].
  destruct (param params idParam) eqn:E; try done; intros [= _ <-].
  - split; [done|]. exists old. split; [done|]. by right.
  - split; [done|]. exists old. split; [done|]. left. by exists s0.
Qed.

Lemma query_addEvent (o : Oracle) (a b c d e f : Value) (w w' : World)
    (rows : list (list Value)) :
  query o SqlAddEvent [a; b; c; d; e; f] w = (Normal rows, w') →
  tables (current w') = tables (current w) ∧
  events (current w') = events (current w) ++ [mkLogEntry a b c d e f].
Proof.
  intros H. apply query_data in H as (_ & s' & Hex & ->); [|done].
  rewrite current_setCurrent. simpl in Hex. by injection Hex as _ <-.
Qed.

Lemma applyCreate_normal (oracle : Oracle) (schema : SchemaType)
    (actorId now : Value) (creator : Value → Completion Value)
    (eventName : string) (table data : Value) (w w' : World) :
  applyCreate oracle schema actorId now creator eventName table data w
    = (Normal tt, w') →
  ∃ row names rowData values rows id w1,
    creator data = Normal row ∧
    namesForTable (processSchema schema) !! toKey table = Some names ∧
    projectRow row names = Normal rowData ∧
    query oracle (SqlInsertReturning (toKey table) names values) rowData w
      = (Normal rows, w1) ∧
    firstCell rows = VStr id ∧
    query oracle SqlAddEvent [VStr eventName; table; VStr id; actorId; data; now]
      w1 = (Normal [], w').
Proof.
  unfold applyCreate. intros H.
  apply bind_inv_normal in H as (row & w0 & Hc & H).
  unfold lift in Hc. injection Hc as Hc <-.
  apply bind_inv_normal in H as (names & w0 & Hn & H).
  destruct (namesForTable (processSchema schema) !! toKey table)
    as [names'|] eqn:En; [|done].
  injection Hn as -> <-.
  apply bind_inv_normal in H as (rowData & w0 & Hp & H).
  unfold lift in Hp. injection Hp as Hp <-.
  apply bind_inv_normal in H as (q & w0 & Hq & H).
  destruct (createForTable (processSchema schema) !! toKey table)
    as [q'|] eqn:Eq; [|done].
  injection Hq as -> <-.
  destruct (compiled_tables schema (toKey table))
    as [(columns & Hn' & _ & Hq' & _)|(_ & _ & Hq' & _)];
    rewrite Hq' in Eq; [|done].
  injection Eq as <-. rewrite Hn' in En. injection En as <-.
  apply bind_inv_normal in H as (rows & w1 & Hins & H).
  destruct (firstCell rows) as [| | | |id| |] eqn:Hid; try done.
  apply bind_inv_normal in H as (rows' & w2 & Hadd & H).
  injection H as <-.
  assert (rows' = []) as ->.
  { apply query_data in Hadd as (_ & s' & Hex & _); [|done].
    simpl in Hex. by injection Hex. }
  by eexists _, _, _, _, _, _, _.
Qed.

Lemma applyModify_normal (oracle : Oracle) (schema : SchemaType)
    (actorId now : Value) (updater : Value → Value → Completion Value)
    (selectedObjects selectedObjects' : Obj) (eventName rowId : string)
    (table data : Value) (w w' : World) :
  applyModify oracle schema actorId now updater selectedObjects eventName
    rowId table data w = (Normal selectedObjects', w') →
  ∃ prev partial names rowData w1,
    cached rowId selectedObjects = Some prev ∧
    updater prev data = Normal partial ∧
    selectedObjects' =
      aset rowId (VObj (aspread (spreadOf prev) (spreadOf partial)))
        selectedObjects ∧
    namesForTable (processSchema schema) !! toKey table = Some names ∧
    projectRow partial names = Normal rowData ∧
    query oracle
      (SqlUpdateCoalesce (toKey table) (zip names (seq 1 (length names)))
         (length names + 1))
      (rowData ++ [VStr rowId]) w = (Normal [], w1) ∧
    query oracle SqlAddEvent
      [VStr eventName; table; VStr rowId; actorId; data; now] w1
      = (Normal [], w').
Proof.
  unfold applyModify. intros H.
  destruct (cached rowId selectedObjects) as [prev|]; [|done].
  apply bind_inv_normal in H as (partial & w0 & Hu & H).
  unfold lift in Hu. injection Hu as Hu <-.
  apply bind_inv_normal in H as (names & w0 & Hn & H).
  destruct (namesForTable (processSchema schema) !! toKey table)
    as [names'|] eqn:En; [|done].
  injection Hn as -> <-.
  apply bind_inv_normal in H as (rowData & w0 & Hp & H).
  unfold lift in Hp. injection Hp as Hp <-.
  apply bind_inv_normal in H as (q & w0 & Hq & H).
  destruct (updateForTable (processSchema schema) !! toKey table)
    as [q'|] eqn:Eq; [|done].
  injection Hq as -> <-.
  rewrite (compiled_update _ _ _ _ Eq En) in H.
  apply bind_inv_normal in H as (rows & w1 & Hupd & H).
  apply bind_inv_normal in H as (rows' & w2 & Hadd & H).
  injection H as <- <-.
  assert (rows = []) as ->.
  { apply query_data in Hupd as (_ & s' & Hex & _); [|done].
    apply exec_update in Hex as Hex'. simpl in Hex.
    destruct (tables (current w) !! toKey table); [|done].
    destruct (param _ _); try done; by injection Hex. }
  assert (rows' = []) as ->.
  { apply query_data in Hadd as (_ & s' & Hex & _); [|done].
    simpl in Hex. by injection Hex. }
  by eexists _, _, _, _, _.
Qed.

(** ** C3: the order of the appended log entries *)

Lemma query_insert_events (o : Oracle) (table : string) (names : list string)
    (values : list nat) (params : list Value) (w w' : World)
    (rows : list (list Value)) :
  query o (SqlInsertReturning table names values) params w = (Normal rows, w') →
  events (current w') = events (current w).
Proof.
  intros H. apply query_data in H as (_ & s' & Hex & ->); [|done].
  rewrite current_setCurrent. by apply exec_insert in Hex.
Qed.

Lemma query_update_events (o : Oracle) (table : string)
    (sets : list (string * nat)) (idParam : nat) (params : list Value)
    (w w' : World) (rows : list (list Value)) :
  query o (SqlUpdateCoalesce table sets idParam) params w = (Normal rows, w') →
  events (current w') = events (current w).
Proof.
  intros H. apply query_data in H as (_ & s' & Hex & ->); [|done].
  rewrite current_setCurrent. by apply exec_update in Hex as [-> _].
Qed.

Lemma applyEvent_log (oracle : Oracle) (schema : SchemaType)
    (reducers : gmap string (gmap string Reducer)) (actorId now : Value)
    (selectedObjects selectedObjects' : Obj) (event : option ESEvent)
    (w w' : World) :
  applyEvent oracle schema reducers actorId now selectedObjects event w
    = (Normal selectedObjects', w') →
  ∃ entries,
    events (current w') = events (current w) ++ entries ∧
    Forall2 (logs actorId now)
      (filter (λ e, applicable reducers e = true) (option_list event)) entries.
Proof.
  unfold applyEvent. destruct event as [event|]; simpl.
  2:{ intros [= _ <-]. exists []. rewrite app_nil_r. by split. }
  rewrite filter_cons, filter_nil. unfold applicable.
  destruct (String.eqb (ev_name event) ""); simpl.
  { intros [= _ <-]. exists []. rewrite app_nil_r. by split. }
  destruct (reducerFor reducers (toKey (ev_table event)) (ev_name event))
    as [[creator|updater]|]; simpl.
  - destruct event as [eventName table data|eventName rowId table data]; simpl.
    + intros H. apply bind_inv_normal in H as ([] & w1 & H & [= _ <-]).
      apply applyCreate_normal in H
        as (row & names & rowData & values & rows & id & w0 &
            _ & _ & _ & Hins & _ & Hadd).
      apply query_insert_events in Hins.
      apply query_addEvent in Hadd as [_ Hadd].
      eexists [_]. rewrite Hadd, Hins. split; [done|].
      try rewrite decide_True by done.
      repeat constructor. simpl. by exists id.
    + intros [= _ <-]. exists []. rewrite app_nil_r. by split.
  - destruct event as [eventName table data|eventName rowId table data]; simpl.
    + intros [= _ <-]. exists []. rewrite app_nil_r. by split.
    + intros H. apply applyModify_normal in H
        as (prev & partial & names & rowData & w1 &
            _ & _ & _ & _ & _ & Hupd & Hadd).
      apply query_update_events in Hupd.
      apply query_addEvent in Hadd as [_ Hadd].
      eexists [_]. rewrite Hadd, Hupd. split; [done|].
      try rewrite decide_True by done.
      by repeat constructor.
  - intros [= _ <-]. exists []. rewrite app_nil_r. by split.
Qed.

Lemma applyEvents_log (oracle : Oracle) (schema : SchemaType)
    (reducers : gmap string (gmap string Reducer)) (actorId now : Value)
    (events0 : list (option ESEvent)) (selectedObjects selectedObjects' : Obj)
    (w w' : World) :
  applyEvents oracle schema reducers actorId now selectedObjects events0 w
    = (Normal selectedObjects', w') →
  ∃ entries,
    events (current w') = events (current w) ++ entries ∧
    Forall2 (logs actorId now)
      (filter (λ e, applicable reducers e = true) (omap id events0)) entries.
Proof.
  unfold applyEvents.
  revert selectedObjects w.
  induction events0 as [|event rest IH]; intros sel w.
  - intros [= _ <-]. exists []. rewrite app_nil_r. by split.
  - rewrite foldM_cons. intros H.
    apply bind_inv_normal in H as (sel1 & w1 & H1 & H2).
    apply applyEvent_log in H1 as (entries1 & E1 & F1).
    apply IH in H2 as (entries2 & E2 & F2).
    exists (entries1 ++ entries2).
    split; [by rewrite E2, E1, app_assoc|].
    replace (omap id (event :: rest))
      with (option_list event ++ omap id rest) by by destruct event.
    rewrite filter_app. by apply Forall2_app.
Qed.

(** C3. When [runCommand] commits, the event log after the call is the log
    visible before it followed by one entry per applied event, in the
    order in which planning returned those events: the [k]-th appended
    entry records the [k]-th planned event that has a reducer of its kind.
    In particular the entries of any one row are appended in planning
    order. *)
Theorem runCommand_log_order {Input : Type} (oracle : Oracle)
    (schema : SchemaType) (reducers : gmap string (gmap string Reducer))
    (command : DispatchCommand Input) (input : Input) (actorId : string)
    (now : Value) (w w0 w' : World) (selectedObjects : Obj)
    (planned : list (option ESEvent)) :
  lockAndPlan oracle schema command input w
    = (Normal (selectedObjects, planned), w0) →
  runCommand oracle schema reducers command input actorId now w
    = (Normal tt, w') →
  last (sent w') = Some (SqlCommit, []) →
  ∃ entries,
    events (committed w') = events (current w) ++ entries ∧
    Forall2 (logs (VStr actorId) now)
      (filter (λ e, applicable reducers e = true) (omap id planned)) entries ∧
    ∀ table rowId,
      filter (λ e, onRow table rowId e = true) (events (committed w'))
      = filter (λ e, onRow table rowId e = true) (events (current w)) ++
        filter (λ e, onRow table rowId e = true) entries.
Proof.
  intros Hplan Hrun Hlast.
  destruct (runCommand_commits_inv _ _ _ _ _ _ _ _ _ Hrun Hlast)
    as (sel & planned' & w0' & sel' & w1 & Hplan' & Happly & Ecur & Hc & _).
  rewrite Hplan in Hplan'. injection Hplan' as <- <- <-.
  apply applyEvents_log in Happly as (entries & E & F).
  exists entries. rewrite Hc, E, Ecur.
  split; [done|]. split; [done|].
  intros table rowId. by rewrite filter_app.
Qed.

Lemma runCommand_log_order_witness :
  ∃ entries,
    events (committed (Demo.run Demo.healthy Demo.touch [] Demo.world5).2)
      = events (current Demo.world5) ++ entries ∧
    Forall2 (logs (VStr "actor") (VNum 0))
      (filter (λ e, applicable (reducers Demo.registry) e = true)
         (omap id
            [Some (ModificationEvent "bump" "r1" (VStr "items") (VObj []));
             None;
             Some (ModificationEvent "rename" "r1" (VStr "items")
                     (VObj [("name", VStr "b")]))]))
      entries ∧
    ∀ table rowId,
      filter (λ e, onRow table rowId e = true)
        (events (committed (Demo.run Demo.healthy Demo.touch [] Demo.world5).2))
      = filter (λ e, onRow table rowId e = true) (events (current Demo.world5))
        ++ filter (λ e, onRow table rowId e = true) entries.
Proof.
  apply (runCommand_log_order Demo.healthy Demo.schema
           (reducers Demo.registry) Demo.touch [] "actor" (VNum 0)
           Demo.world5
           (lockAndPlan Demo.healthy Demo.schema Demo.touch [] Demo.world5).2
           (Demo.run Demo.healthy Demo.touch [] Demo.world5).2
           [("r1", VObj Demo.item5)]).
  - vm_compute. reflexivity.
  - vm_compute. reflexivity.
  - vm_compute. reflexivity.
Defined.

(** ** C9: applying the same modify event twice *)

Lemma coalesce_idem (new old : Value) :
  coalesce new (coalesce new old) = coalesce new old.
Proof. by destruct new. Qed.

Lemma updateRow_idem (sets : Assoc nat) (params : list Value) (row : Obj) :
  updateRow sets params (updateRow sets params row) = updateRow sets params row.
Proof.
  unfold updateRow. rewrite map_map. apply map_ext. intros [c v]. simpl.
  destruct (aget c sets); [|done]. by rewrite coalesce_idem.
Qed.

Lemma updateMatching_idem (id : string) (sets : Assoc nat)
    (params : list Value) (rows : list Obj) :
  let upd := λ row : Obj,
    if hasId id row then updateRow sets params row else row in
  upd <$> (upd <$> rows) = upd <$> rows.
Proof.
  cbv zeta. rewrite <- list_fmap_compose. apply list_fmap_ext.
  intros _ row _. simpl. destruct (hasId id row) eqn:E.
  - destruct (hasId id (updateRow sets params row));
      [apply updateRow_idem|done].
  - by rewrite E.
Qed.

Lemma projectRow_length (data : Value) (names : list string)
    (rowData : list Value) :
  projectRow data names = Normal rowData → length rowData = length names.
Proof.
  revert rowData. induction names as [|name names IH]; intros rowData; simpl.
  - by intros [= <-].
  - destruct (getProp data name); [|done].
    destruct (projectRow data names) as [vs|]; [|done].
    intros [= <-]. simpl. f_equal. by apply IH.
Qed.

Lemma param_last (rowData : list Value) (v : Value) (n : nat) :
  length rowData = n → param (rowData ++ [v]) (n + 1) = v.
Proof.
  intros <-. unfold param.
  replace (length rowData + 1 - 1) with (length rowData) by lia.
  by rewrite list_lookup_middle.
Qed.

Lemma runCommandBody_normal {Input : Type} (oracle : Oracle)
    (schema : SchemaType) (reducers : gmap string (gmap string Reducer))
    (command : DispatchCommand Input) (input : Input) (actorId : string)
    (now : Value) (w w' : World) :
  runCommandBody oracle schema reducers command input actorId now w
    = (Normal tt, w') →
  last (sent w') = Some (SqlCommit, []).
Proof.
  rewrite runCommandBody_decompose. intros H.
  apply bind_inv_normal in H as (p & w0 & _ & H).
  apply bind_inv_normal in H as (sel & w2 & _ & H).
  apply bind_inv_normal in H as (rows & w3 & Hc & [= <-]).
  apply query_commit in Hc as (_ & _ & _ & ->). apply last_snoc.
Qed.

(** A committing run that plans the one modify event: what it commits. *)
Lemma single_modify_commit {Input : Type} (oracle : Oracle)
    (schema : SchemaType) (reducers : gmap string (gmap string Reducer))
    (command : DispatchCommand Input) (input : Input) (actorId : string)
    (now : Value) (eventName rowId : string) (table data : Value)
    (updater : Value → Value → Completion Value) (w w1 : World) :
  eventName ≠ "" →
  reducerFor reducers (toKey table) eventName = Some (ReducerModify updater) →
  (∀ client locked,
     planActions command client input locked
       = Normal [Some (ModificationEvent eventName rowId table data)]) →
  runCommand oracle schema reducers command input actorId now w
    = (Normal tt, w1) →
  last (sent w1) = Some (SqlCommit, []) →
  ∃ prev partial names rowData old,
    updater prev data = Normal partial ∧
    namesForTable (processSchema schema) !! toKey table = Some names ∧
    projectRow partial names = Normal rowData ∧
    tables (current w) !! toKey table = Some old ∧
    tables (committed w1) =
      <[toKey table :=
          (λ row : Obj,
             if hasId rowId row
             then updateRow (zip names (seq 1 (length names)))
                    (rowData ++ [VStr rowId]) row
             else row) <$> old]> (tables (current w)) ∧
    events (committed w1) =
      events (current w) ++
      [mkLogEntry (VStr eventName) table (VStr rowId) (VStr actorId) data now] ∧
    working w1 = None.
Proof.
  intros Hname Hred Hplan Hrun Hlast.
  destruct (runCommand_commits_inv _ _ _ _ _ _ _ _ _ Hrun Hlast)
    as (sel & planned & w0 & sel' & wa & Hlp & Happly & Ecur & Hc & Hw).
  destruct (lockAndPlan_planned _ _ _ _ _ _ _ _ Hlp) as (client & locked & Hp).
  rewrite Hplan in Hp. injection Hp as <-.
  unfold applyEvents in Happly. rewrite foldM_cons in Happly.
  apply bind_inv_normal in Happly as (s1 & wb & Hev & [= _ <-]).
  unfold applyEvent in Hev. simpl in Hev.
  destruct (String.eqb_spec eventName ""); [done|].
  rewrite Hred in Hev.
  apply applyModify_normal in Hev
    as (prev & partial & names & rowData & wu &
        _ & Hu & _ & Hn & Hpr & Hupd & Hadd).
  pose proof (query_update_events _ _ _ _ _ _ _ _ Hupd) as Eev.
  apply query_data in Hupd as (_ & s' & Hex & ->); [|done].
  apply exec_update in Hex as (_ & old & Hold & Hcase).
  rewrite (param_last _ _ _ (projectRow_length _ _ _ Hpr)) in Hcase.
  destruct Hcase as [(id & [= <-] & Ht)|[? _]]; [|done].
  apply query_addEvent in Hadd as [Et Ee].
  rewrite current_setCurrent in Et, Eev, Ee.
  exists prev, partial, names, rowData, old.
  rewrite Hc, Et, Ee, Ht, Eev. rewrite Ecur in *. by repeat split.
Qed.

(** C9 as amended.  When the updater's partial result for the payload does
    not depend on the previous row, issuing the same modify event a second
    time, right after a run that committed it, leaves every table as the
    first run left it, whether or not the second run commits; each run
    that commits appends exactly one entry for the event to the log. *)
Theorem modify_twice_same_state {Input : Type} (oracle : Oracle)
    (schema : SchemaType) (reducers : gmap string (gmap string Reducer))
    (command : DispatchCommand Input) (input : Input) (actorId : string)
    (now now' : Value) (eventName rowId : string) (table data : Value)
    (updater : Value → Value → Completion Value) (w w1 : World) :
  let event := ModificationEvent eventName rowId table data in
  eventName ≠ "" →
  reducerFor reducers (toKey table) eventName = Some (ReducerModify updater) →
  (∀ client locked,
     planActions command client input locked = Normal [Some event]) →
  (∀ previous previous', updater previous' data = updater previous data) →
  runCommand oracle schema reducers command input actorId now w
    = (Normal tt, w1) →
  last (sent w1) = Some (SqlCommit, []) →
  let second :=
    runCommand oracle schema reducers command input actorId now' w1 in
  tables (committed second.2) = tables (committed w1) ∧
  (∃ e1, events (committed w1) = events (current w) ++ [e1] ∧
         logs (VStr actorId) now event e1) ∧
  (second.1 = Normal tt → last (sent second.2) = Some (SqlCommit, []) →
   ∃ e2, events (committed second.2) = events (committed w1) ++ [e2] ∧
         logs (VStr actorId) now' event e2).
Proof.
  intros event Hname Hred Hplan Hindep Hrun Hlast second.
  destruct (single_modify_commit _ _ _ _ _ _ _ _ _ _ _ _ _ _
              Hname Hred Hplan Hrun Hlast)
    as (prev & partial & names & rowData & old &
        Hu & Hn & Hpr & Hold & Ht & Ee & Hw).
  split; [|split].
  - subst second. rewrite runCommand_unfold.
    destruct (runCommandBody oracle schema reducers command input actorId
                now' w1) as [[[]|e] w2] eqn:Hbody.
    + assert (Hrun2 :
        runCommand oracle schema reducers command input actorId now' w1
          = (Normal tt, w2)) by by rewrite runCommand_unfold, Hbody.
      pose proof (runCommandBody_normal _ _ _ _ _ _ _ _ _ Hbody) as Hlast2.
      destruct (single_modify_commit _ _ _ _ _ _ _ _ _ _ _ _ _ _
                  Hname Hred Hplan Hrun2 Hlast2)
        as (prev2 & partial2 & names2 & rowData2 & old2 &
            Hu2 & Hn2 & Hpr2 & Hold2 & Ht2 & _ & _).
      rewrite (Hindep prev prev2), Hu in Hu2. injection Hu2 as <-.
      rewrite Hn in Hn2. injection Hn2 as <-.
      rewrite Hpr in Hpr2. injection Hpr2 as <-.
      assert (Ecur : current w1 = committed w1)
        by (unfold current; by rewrite Hw).
      rewrite Ecur in Hold2, Ht2. simpl. rewrite Ht2.
      rewrite Ht in Hold2. rewrite lookup_insert_eq in Hold2.
      injection Hold2 as <-.
      rewrite updateMatching_idem. rewrite Ht. by rewrite insert_insert_eq.
    + pose proof (runCommandBody_throw _ _ _ _ _ _ _ _ _ _ Hbody) as Ec.
      destruct (fails oracle (length (sent w2)) SqlRollback); simpl;
        by rewrite Ec.
  - eexists. split; [exact Ee|]. by repeat split.
  - intros Hnormal Hlast2.
    assert (Hrun2 :
      runCommand oracle schema reducers command input actorId now' w1
        = (Normal tt, second.2)).
    { subst second. destruct (runCommand _ _ _ _ _ _ _ w1) as [r w2].
      simpl in *. by subst r. }
    destruct (single_modify_commit _ _ _ _ _ _ _ _ _ _ _ _ _ _
                Hname Hred Hplan Hrun2 Hlast2)
      as (_ & _ & _ & _ & _ & _ & _ & _ & _ & _ & Ee2 & _).
    assert (Ecur : current w1 = committed w1)
      by (unfold current; by rewrite Hw).
    rewrite Ecur in Ee2.
    eexists. split; [exact Ee2|]. by repeat split.
Qed.

Lemma modify_twice_same_state_witness :
  let w1 :=
    (Demo.run Demo.healthy Demo.rename
       [("id", VStr "r1"); ("name", VStr "b")] Demo.world5).2 in
  let event :=
    ModificationEvent "rename" "r1" (VStr "items")
      (VObj [("id", VStr "r1"); ("name", VStr "b")]) in
  let second :=
    runCommand Demo.healthy Demo.schema (reducers Demo.registry) Demo.rename
      [("id", VStr "r1"); ("name", VStr "b")] "actor" (VNum 1) w1 in
  tables (committed second.2) = tables (committed w1) ∧
  (∃ e1, events (committed w1) = events (current Demo.world5) ++ [e1] ∧
         logs (VStr "actor") (VNum 0) event e1) ∧
  (second.1 = Normal tt → last (sent second.2) = Some (SqlCommit, []) →
   ∃ e2, events (committed second.2) = events (committed w1) ++ [e2] ∧
         logs (VStr "actor") (VNum 1) event e2).
Proof.
  apply (modify_twice_same_state Demo.healthy Demo.schema
           (reducers Demo.registry) Demo.rename
           [("id", VStr "r1"); ("name", VStr "b")] "actor" (VNum 0) (VNum 1)
           "rename" "r1" (VStr "items")
           (VObj [("id", VStr "r1"); ("name", VStr "b")])
           Demo.renameUpdater Demo.world5).
  - discriminate.
  - vm_compute. reflexivity.
  - intros client locked. reflexivity.
  - intros previous previous'. reflexivity.
  - vm_compute. reflexivity.
  - vm_compute. reflexivity.
Defined.

(** The claim as stated fails for an updater that reads the previous row:
    the increment of the spec's own example takes 5 to 6 the first time
    and 6 to 7 the second time. *)
Lemma bump_twice_differs :
  let w1 := (Demo.run Demo.healthy Demo.bump [("id", VStr "r1")] Demo.world5).2 in
  let w2 := (Demo.run Demo.healthy Demo.bump [("id", VStr "r1")] w1).2 in
  tables (committed w1) !! "items"
    = Some [[("id", VStr "r1"); ("name", VStr "a"); ("value", VNum 6)]] ∧
  tables (committed w2) !! "items"
    = Some [[("id", VStr "r1"); ("name", VStr "a"); ("value", VNum 7)]] ∧
  tables (committed w2) ≠ tables (committed w1).
Proof.
  cbv zeta. split; [by vm_compute|]. split; [by vm_compute|].
  intros H. apply (f_equal (λ m, m !! "items")) in H.
  vm_compute in H. discriminate.
Qed.

(** ** C1: row reconstruction *)

Lemma reduceRow_result (o : Oracle) (table rowId : string) (w : World) :
  (reduceRow o table rowId w).1 = Normal (VObj []) ∨
  ∃ n, (reduceRow o table rowId w).1 = Throw (DbError n).
Proof.
  unfold reduceRow, tryCatch.
  match goal with
  | |- context [match ?body w with _ => _ end] =>
      destruct (body w) as [[v|e] w1] eqn:Hbody
  end.
  - left.
    apply bind_inv_normal in Hbody as (? & ? & _ & H).
    apply bind_inv_normal in H as (? & ? & _ & H).
    apply bind_inv_normal in H as (? & ? & _ & H).
    apply bind_inv_normal in H as (? & ? & _ & H).
    by injection H as <-.
  - unfold bind, consoleLog. rewrite query_rollback. simpl.
    destruct (fails o _ SqlRollback); [right; by eexists|by left].
Qed.

(** C1, where the code departs from it.  [reduceRow] reads the entries of
    the row and prints them, but its result never depends on them: it is
    the empty object (or the failure of its own [rollback]).  On the log
    of an item created with value 5 and bumped twice, the contract yields
    the row with value 7 and [reduceRow] yields [{}]; on a row without
    entries the contract fails with "row not found" and [reduceRow] again
    yields [{}]. *)
Theorem reduceRow_returns_empty_object :
  (∀ o table rowId w,
     (reduceRow o table rowId w).1 = Normal (VObj []) ∨
     ∃ n, (reduceRow o table rowId w).1 = Throw (DbError n)) ∧
  reduceRowIntended (reducers Demo.registry) "items" "row-1"
      (committed Demo.logged)
    = Normal (VObj [("name", VStr "a"); ("value", VNum 7)]) ∧
  (reduceRow Demo.healthy "items" "row-1" Demo.logged).1 = Normal (VObj []) ∧
  reduceRowIntended (reducers Demo.registry) "items" "row-9"
      (committed Demo.logged)
    = Throw (JsError "row not found") ∧
  (reduceRow Demo.healthy "items" "row-9" Demo.logged).1 = Normal (VObj []).
Proof.
  split; [apply reduceRow_result|].
  repeat split; by vm_compute.
Qed.

(** * Further properties of the code *)

(** ** Registration *)

(** The [planActions] synthesized for a modify-kind command calls
    [validate]; when [validate] returns a row id, the plan is the single
    modification event for that id, named after the command, carrying the
    input without its [table] property and the resolved table; when
    [validate] throws, that failure is the outcome of planning.  The
    command keeps the name and the mutator it was given. *)
Theorem createCommand_modify_planActions (c : UpdaterCommand) (reg : Registry)
    (client : Store) (input lockedRows : Obj) :
  uc_name c ∉ commandNames reg →
  ∃ command event reg',
    createCommand (ArgModify c) reg = (Normal (RegModify command event), reg') ∧
    name command = uc_name c ∧
    mutator command = uc_mutator c ∧
    planActions command client input lockedRows =
      match uc_validate c client input lockedRows with
      | Normal id =>
          Normal [Some (ModificationEvent (uc_name c) id
                          match uc_table c with
                          | Some t => VStr t
                          | None => default VUndefined (aget "table" input)
                          end
                          (VObj (aremove "table" input)))]
      | Throw e => Throw e
      end.
Proof.
  intros Hfresh. unfold createCommand. simpl.
  rewrite decide_False by done.
  eexists _, _, _. split; [reflexivity|]. split; [reflexivity|].
  split; [reflexivity|].
  simpl. unfold updaterPlanActions, updaterEvent, resolveTable.
  destruct (uc_validate c client input lockedRows); [|done].
  by destruct (uc_table c).
Qed.

Lemma createCommand_modify_planActions_witness :
  ∃ command event reg',
    createCommand Demo.renameArg emptyRegistry
      = (Normal (RegModify command event), reg') ∧
    name command = "rename" ∧
    mutator command = Demo.itemMutator ∧
    planActions command Demo.store5
        [("id", VStr "r1"); ("name", VStr "b")] []
      = Normal [Some (ModificationEvent "rename" "r1" (VStr "items")
                        (VObj [("id", VStr "r1"); ("name", VStr "b")]))].
Proof.
  apply (createCommand_modify_planActions
           (mkUpdater "rename" Demo.itemMutator (Some "items")
              (λ _ input _, Normal (Demo.targetOf input)))
           emptyRegistry Demo.store5
           [("id", VStr "r1"); ("name", VStr "b")] []).
  by_evaluation.
Defined.

Lemma elem_of_commandNames (name : string) (reg : Registry) :
  name ∈ commandNames reg ↔
  name ∈ ownCommandNames reg ∨ name ∈ objectPrototype.
Proof. unfold commandNames. by rewrite elem_of_union, elem_of_list_to_set. Qed.

(** [createCommand] succeeds exactly when [commandNames[name]] is falsy:
    the name is neither a key of [commandNames], that is, registered
    before, nor a name that this plain object inherits, such as
    [constructor] or [toString].  On success it adds the name and nothing
    else to the registry, and the command it returns carries that name;
    on failure it throws the duplicate-name error and the registry is as
    it was.  A generic command is returned as it was supplied.  A command
    named like a member of [Object.prototype] is never accepted, not even
    by a fresh instance. *)
Theorem createCommand_registers_name :
  (∀ (Input : Type) (arg : CommandArg Input) (reg : Registry),
     match createCommand arg reg with
     | (Normal r, reg') =>
         (argName arg ∉ ownCommandNames reg) ∧
         (argName arg ∉ objectPrototype) ∧
         ownCommandNames reg' = {[argName arg]} ∪ ownCommandNames reg ∧
         reducers reg' = reducers reg ∧
         printed reg' = printed reg ∧
         name (dispatchOf r) = argName arg
     | (Throw e, reg') =>
         (argName arg ∈ ownCommandNames reg ∨
          argName arg ∈ objectPrototype) ∧
         e = JsError ("Duplicate command name " +:+ argName arg) ∧
         reg' = reg
     end) ∧
  (∀ (Input : Type) (command : DispatchCommand Input) (reg : Registry),
     name command ∉ ownCommandNames reg →
     name command ∉ objectPrototype →
     (createCommand (ArgDispatch command) reg).1
       = Normal (RegDispatch command)) ∧
  (∀ (Input : Type) (arg : CommandArg Input) (reg : Registry),
     argName arg ∈ objectPrototype →
     createCommand arg reg
       = (Throw (JsError ("Duplicate command name " +:+ argName arg)), reg)).
Proof.
  split; [|split].
  - intros Input arg reg. unfold createCommand.
    destruct (decide (argName arg ∈ commandNames reg)) as [Hin|Hnin].
    + split; [by apply elem_of_commandNames|done].
    + rewrite elem_of_commandNames in Hnin.
      split; [tauto|]. split; [tauto|]. simpl.
      repeat split. by destruct arg.
  - intros Input command reg Hfresh Hplain. unfold createCommand. simpl.
    rewrite decide_False; [done|].
    rewrite elem_of_commandNames. tauto.
  - intros Input arg reg Hin. unfold createCommand.
    rewrite decide_True; [done|].
    apply elem_of_commandNames. by right.
Qed.

Lemma createCommand_registers_name_witness :
  (createCommand (ArgDispatch Demo.touch) emptyRegistry).1
    = Normal (RegDispatch Demo.touch) ∧
  createCommand (ArgDispatch (mkDispatch "toString" (mutator Demo.touch)
                                (planActions Demo.touch)))
      emptyRegistry
    = (Throw (JsError "Duplicate command name toString"), emptyRegistry).
Proof.
  destruct createCommand_registers_name as (_ & Hfree & Hinherited).
  split.
  - apply (Hfree Obj Demo.touch emptyRegistry); by_evaluation.
  - apply (Hinherited Obj
             (ArgDispatch (mkDispatch "toString" (mutator Demo.touch)
                             (planActions Demo.touch)))
             emptyRegistry).
    by_evaluation.
Defined.

(** Commands with different names do not get in each other's way: after a
    successful registration, a command with another name, which was
    neither registered before nor is inherited by [commandNames], is
    still accepted; the keys of [commandNames] are then the two names and
    the earlier ones. *)
Theorem createCommand_distinct_names {I1 I2 : Type} (c1 : CommandArg I1)
    (c2 : CommandArg I2) (reg reg1 : Registry) (r1 : Registered I1) :
  argName c2 ≠ argName c1 →
  argName c2 ∉ ownCommandNames reg →
  argName c2 ∉ objectPrototype →
  createCommand c1 reg = (Normal r1, reg1) →
  ∃ r2 reg2,
    createCommand c2 reg1 = (Normal r2, reg2) ∧
    ownCommandNames reg2 = {[argName c2; argName c1]} ∪ ownCommandNames reg.
Proof.
  intros Hne Hfresh Hplain H1. unfold createCommand in *.
  destruct (decide (argName c1 ∈ commandNames reg)); [done|].
  injection H1 as _ <-.
  rewrite decide_False.
  - eexists _, _. split; [reflexivity|]. simpl. set_solver.
  - rewrite elem_of_commandNames. simpl. set_solver.
Qed.

Lemma createCommand_distinct_names_witness :
  ∃ r2 reg2,
    createCommand Demo.bumpArg (createCommand Demo.createItemArg emptyRegistry).2
      = (Normal r2, reg2) ∧
    ownCommandNames reg2 = {["bump"; "createItem"]} ∪ ∅.
Proof.
  apply (createCommand_distinct_names Demo.createItemArg Demo.bumpArg
           emptyRegistry (createCommand Demo.createItemArg emptyRegistry).2
           (RegCreate Demo.createItem (creatorEvent "createItem" (Some "items")))).
  - discriminate.
  - by_evaluation.
  - by_evaluation.
  - vm_compute. reflexivity.
Defined.

Lemma reducerFor_fresh_table (rs : gmap string (gmap string Reducer))
    (table t n : string) :
  rs !! table = None →
  reducerFor (<[table := ∅]> rs) t n = reducerFor rs t n.
Proof.
  intros Hnone. unfold reducerFor.
  destruct (decide (t = table)) as [->|Hne].
  - by rewrite lookup_insert_eq, Hnone.
  - by rewrite lookup_insert_ne.
Qed.

(** For a table that is not named like a member of [Object.prototype],
    [addReducer] succeeds exactly when [reducers[table][name]] is falsy:
    the pair has no reducer yet and the name is not one that the handler
    table inherits, such as [toString].  On success the pair resolves to
    the new reducer and every other pair resolves as before; on failure
    it throws the duplicate-handler error, prints the name and the table,
    and every pair resolves as before.  The command names are never
    touched. *)
Theorem addReducer_registers_pair (table name : string) (reducer : Reducer)
    (reg : Registry) :
  table ∉ objectPrototype →
  match addReducer table name reducer reg with
  | (Normal _, reg') =>
      reducerFor (reducers reg) table name = None ∧
      (name ∉ objectPrototype) ∧
      reducerFor (reducers reg') table name = Some reducer ∧
      (∀ t n, (t, n) ≠ (table, name) →
              reducerFor (reducers reg') t n = reducerFor (reducers reg) t n) ∧
      commandNames reg' = commandNames reg ∧
      printed reg' = printed reg
  | (Throw e, reg') =>
      (is_Some (reducerFor (reducers reg) table name) ∨
       name ∈ objectPrototype) ∧
      e = JsError "Duplicate event handler for table" ∧
      (∀ t n, reducerFor (reducers reg') t n = reducerFor (reducers reg) t n) ∧
      commandNames reg' = commandNames reg ∧
      printed reg' = printed reg ++ [LogPair (VStr name) (VStr table)]
  end.
Proof.
  intros _. unfold addReducer.
  set (reducers1 := match reducers reg !! table with
                    | Some _ => reducers reg
                    | None => <[table := ∅]> (reducers reg)
                    end).
  assert (Hsame : ∀ t n, reducerFor reducers1 t n = reducerFor (reducers reg) t n).
  { intros t n. subst reducers1.
    destruct (reducers reg !! table) eqn:E; [done|].
    by apply reducerFor_fresh_table. }
  destruct (decide _) as [Htaken|Hfree]; simpl.
  - rewrite Hsame in Htaken. by repeat split.
  - rewrite Hsame in Hfree.
    split; [destruct (reducerFor (reducers reg) table name) eqn:E;
            [destruct Hfree; left; by eexists|done]|].
    split; [tauto|]. split; [apply reducerFor_insert|].
    split; [|done].
    intros t n Hne. rewrite <- Hsame. unfold reducerFor.
    destruct (decide (t = table)) as [->|Ht].
    + rewrite lookup_insert_eq. simpl.
      rewrite lookup_insert_ne by congruence.
      by destruct (reducers1 !! table).
    + by rewrite lookup_insert_ne.
Qed.

Lemma addReducer_registers_pair_witness :
  ("items" ∉ objectPrototype) ∧
  (creator "items" "toString" Demo.itemCreator emptyRegistry).1
    = Throw (JsError "Duplicate event handler for table") ∧
  (creator "items" "createItem" Demo.itemCreator emptyRegistry).1 = Normal tt ∧
  reducerFor
    (reducers (creator "items" "createItem" Demo.itemCreator emptyRegistry).2)
    "items" "createItem" = Some (ReducerCreate Demo.itemCreator).
Proof.
  assert (Hitems : "items" ∉ objectPrototype) by by_evaluation.
  split; [exact Hitems|].
  pose proof (addReducer_registers_pair "items" "toString"
                (ReducerCreate Demo.itemCreator) emptyRegistry Hitems) as H1.
  pose proof (addReducer_registers_pair "items" "createItem"
                (ReducerCreate Demo.itemCreator) emptyRegistry Hitems) as H2.
  unfold creator.
  destruct (addReducer "items" "toString" _ _) as [[[]|e] reg1].
  - destruct H1 as (_ & Hno & _). destruct Hno. by_evaluation.
  - destruct H1 as (_ & -> & _).
    destruct (addReducer "items" "createItem" _ _) as [[[]|e] reg2] eqn:E2.
    + destruct H2 as (_ & _ & Hr & _). by repeat split.
    + vm_compute in E2. discriminate.
Defined.

(** ** The schema compiler, continued *)

Lemma akeys_aget {V} (k : string) (o : Assoc V) :
  k ∈ akeys o → is_Some (aget k o).
Proof.
  induction o as [|[k' v'] o IH]; simpl.
  - intros H. by apply not_elem_of_nil in H.
  - intros H. destruct (String.eqb_spec k k') as [->|Hne]; [by eexists|].
    apply IH. apply elem_of_cons in H as [H|H]; [done|exact H].
Qed.

(** The four tables that [processSchema] returns have the same keys: the
    tables the schema declares, [events] excepted.  So a table for which
    [runCommand] finds a statement also has its list of column names. *)
Theorem processSchema_same_keys (schema : SchemaType) (table : string) :
  let info := processSchema schema in
  let declared := table ≠ "events" ∧ table ∈ akeys schema in
  (is_Some (namesForTable info !! table) ↔ declared) ∧
  (is_Some (selectUpdateForTable info !! table) ↔ declared) ∧
  (is_Some (createForTable info !! table) ↔ declared) ∧
  (is_Some (updateForTable info !! table) ↔ declared).
Proof.
  cbv zeta.
  pose proof (processSchema_loop schema (akeys schema) emptySchemaInfo table)
    as H.
  cbv zeta in H. fold (processSchema schema) in H. unfold visited in H.
  destruct (decide (table ∈ akeys schema ∧ table ≠ "events")) as [[Hin Hne]|Hn].
  - destruct (akeys_aget _ _ Hin) as [columns Hget]. rewrite Hget in H.
    destruct H as (-> & -> & -> & ->).
    split; [|split; [|split]]; (split; [done|by eauto]).
  - destruct H as (-> & -> & -> & ->). simpl. rewrite !lookup_empty.
    split; [|split; [|split]];
      (split; [intros Hx; by apply is_Some_None in Hx
              |intros [Hx1 Hx2]; by destruct Hn]).
Qed.

(** ** Projection of a reducer's result onto the columns *)

Lemma projectRow_spec (data : Value) (names : list string) :
  match projectRow data names with
  | Normal rowData =>
      rowData = (λ name, orNull (vget name data)) <$> names ∧
      Forall (λ v, v ≠ VUndefined) rowData
  | Throw _ => names ≠ [] ∧ (data = VUndefined ∨ data = VNull)
  end.
Proof.
  induction names as [|name names IH]; simpl; [by split|].
  unfold getProp.
  destruct data; try (by split; [|by eauto]);
    destruct (projectRow _ names) as [vs|]; try (by destruct IH);
    destruct IH as [-> IH]; (split; [done|]);
    (constructor; [|exact IH]);
    unfold orNull; by destruct (vget name _).
Qed.

Lemma projectRow_normal (data : Value) (names : list string)
    (rowData : list Value) :
  projectRow data names = Normal rowData →
  rowData = (λ name, orNull (vget name data)) <$> names.
Proof.
  intros H. pose proof (projectRow_spec data names) as Hc.
  rewrite H in Hc. apply Hc.
Qed.

(** [names.map((name) => data[name] ?? null)] yields one parameter per
    column, in column order: the property of that name, or [null] when it
    is absent; no parameter is [undefined].  It fails only when there is
    a column to read and the reducer returned [undefined] or [null]. *)
Theorem projectRow_columns (data : Value) (names : list string) :
  match projectRow data names with
  | Normal rowData =>
      rowData = (λ name, orNull (vget name data)) <$> names ∧
      Forall (λ v, v ≠ VUndefined) rowData
  | Throw _ => names ≠ [] ∧ (data = VUndefined ∨ data = VNull)
  end.
Proof. apply projectRow_spec. Qed.

(** ** The statements that a run sends *)

Lemma extends_refl (w : World) : extends w w.
Proof. exists []. by rewrite app_nil_r. Qed.

Lemma extends_trans (a b c : World) : extends a b → extends b c → extends a c.
Proof.
  intros [t1 E1] [t2 E2]. exists (t1 ++ t2). by rewrite E2, E1, app_assoc.
Qed.

Lemma extends_console (w : World) (l : LogLine) :
  extends w (mkWorld (committed w) (working w) (sent w) (console w ++ [l])).
Proof. exists []. simpl. by rewrite app_nil_r. Qed.

Lemma query_sent (o : Oracle) (q : Sql) (params : list Value) (w w' : World)
    (r : Completion (list (list Value))) :
  query o q params w = (r, w') →
  sent w' = sent w ++ [(q, params)] ∧ console w' = console w.
Proof.
  unfold query. destruct (fails o (length (sent w)) q).
  { by intros [= <- <-]. }
  destruct q;
    try (by simpl; intros [= <- <-]; destruct (working w));
    destruct_exec r' s'; intros [= <- <-];
    unfold setCurrent; simpl; by destruct (working w).
Qed.

Lemma query_extends (o : Oracle) (q : Sql) (params : list Value) :
  preserved extends (query o q params).
Proof. intros w r w' H. apply query_sent in H as [H _]. by eexists. Qed.

Lemma lockPhase_refl (w : World) : lockPhase w w.
Proof. repeat split. exists []. by rewrite app_nil_r. Qed.

Lemma lockPhase_trans (a b c : World) :
  lockPhase a b → lockPhase b c → lockPhase a c.
Proof.
  intros (E1 & E2 & E3 & t1 & E4 & F1) (E5 & E6 & E7 & t2 & E8 & F2).
  repeat split; try congruence.
  exists (t1 ++ t2). split; [by rewrite E8, E4, app_assoc|].
  by apply Forall_app.
Qed.

Lemma query_read_lockPhase (o : Oracle) (q : Sql) (params : list Value) :
  isRead q → preserved lockPhase (query o q params).
Proof.
  intros Hq w r w' H.
  pose proof (query_sent _ _ _ _ _ _ H) as [Hs Hc].
  assert (Htrace : ∃ trace, sent w' = sent w ++ trace ∧
                            Forall (λ qp : Sql * list Value, isRead qp.1) trace).
  { exists [(q, params)]. split; [done|]. by repeat constructor. }
  destruct q; try done.
  - assert (E : current w' = current w ∧ committed w' = committed w).
    { revert H. unfold query.
      destruct (fails o (length (sent w)) SqlBegin); intros [= _ <-];
        unfold current, tick; simpl; [done|].
      by destruct (working w) eqn:Ew; simpl; rewrite ?Ew. }
    destruct E. by repeat split.
  - apply query_select_sameData in H as (E1 & E2 & _). by repeat split.
Qed.

Lemma lockAndPlan_preserved {Input : Type} (P : World → World → Prop)
    (oracle : Oracle) (schema : SchemaType) (command : DispatchCommand Input)
    (input : Input) :
  (∀ w, P w w) →
  (∀ a b c, P a b → P b c → P a c) →
  (∀ q params, isRead q → preserved P (query oracle q params)) →
  preserved P (lockAndPlan oracle schema command input).
Proof.
  intros P_refl P_trans P_read. unfold lockAndPlan.
  apply (preserved_bind P P_trans); [by apply P_read|]. intros ?.
  apply (preserved_bind_lift P P_refl). intros m _.
  apply (preserved_bind P P_trans).
  { apply (preserved_lockRows P P_refl P_trans). intros. by apply P_read. }
  intros locked.
  apply (preserved_bind P P_trans); [apply (preserved_liftRead P P_refl)|].
  intros events. apply (preserved_ret P P_refl).
Qed.

Lemma lockAndPlan_lockPhase {Input : Type} (oracle : Oracle)
    (schema : SchemaType) (command : DispatchCommand Input) (input : Input) :
  preserved lockPhase (lockAndPlan oracle schema command input).
Proof.
  apply lockAndPlan_preserved;
    [apply lockPhase_refl|apply lockPhase_trans|].
  intros q params Hq. by apply query_read_lockPhase.
Qed.

Lemma lockAndPlan_mutator {Input : Type} (oracle : Oracle)
    (schema : SchemaType) (command : DispatchCommand Input) (input : Input)
    (w w0 : World) (p : Obj * list (option ESEvent)) :
  lockAndPlan oracle schema command input w = (Normal p, w0) →
  ∃ m, mutator command input = Normal m.
Proof.
  unfold lockAndPlan. intros H.
  apply bind_inv_normal in H as (rows & w1 & _ & H).
  apply bind_inv_normal in H as (m & w2 & Hm & _).
  unfold lift in Hm. injection Hm as Hm _. by exists m.
Qed.

Lemma runCommandBody_begins {Input : Type} (oracle : Oracle)
    (schema : SchemaType) (reducers : gmap string (gmap string Reducer))
    (command : DispatchCommand Input) (input : Input) (actorId : string)
    (now : Value) (w w' : World) (r : Completion unit) :
  runCommandBody oracle schema reducers command input actorId now w = (r, w') →
  ∃ trace, sent w' = sent w ++ (SqlBegin, []) :: trace.
Proof.
  rewrite runCommandBody_decompose. intros H.
  assert (Hplan : ∀ r0 w0,
            lockAndPlan oracle schema command input w = (r0, w0) →
            ∃ trace, sent w0 = sent w ++ (SqlBegin, []) :: trace).
  { unfold lockAndPlan. intros r0 w0 H0.
    apply bind_inv in H0 as [(rows & w1 & Hb & H0)|(e & Hb & _)].
    - apply query_sent in Hb as [Hb _].
      assert (Hrest : extends w1 w0).
      { revert H0. apply (preserved_bind_lift extends extends_refl).
        intros m _.
        apply (preserved_bind extends extends_trans).
        { apply (preserved_lockRows extends extends_refl extends_trans).
          intros. apply query_extends. }
        intros locked.
        apply (preserved_bind extends extends_trans);
          [apply (preserved_liftRead extends extends_refl)|].
        intros events. apply (preserved_ret extends extends_refl). }
      destruct Hrest as [t Ht]. exists t.
      by rewrite Ht, Hb, <- app_assoc.
    - apply query_sent in Hb as [Hb _]. by exists []. }
  apply bind_inv in H as [(p & w0 & Hp & H)|(e & Hp & _)].
  - apply Hplan in Hp as [t1 E1].
    assert (Hrest : extends w0 w').
    { revert H. apply (preserved_bind extends extends_trans).
      { apply (preserved_applyEvents extends extends_refl extends_trans
                 extends_console).
        intros. apply query_extends. }
      intros ?. apply (preserved_bind extends extends_trans);
        [apply query_extends|].
      intros ?. apply (preserved_ret extends extends_refl). }
    destruct Hrest as [t2 E2]. exists (t1 ++ t2).
    rewrite E2, E1, <- app_assoc. by simpl.
  - by apply Hplan in Hp.
Qed.

(** Every run of [runCommand] sends [begin] first and ends in one of two
    ways.  Either its last statement is [commit], the call completes
    normally and no transaction is left open; or its last statement is
    [rollback] and the committed data are exactly those before the call:
    then the call completes normally with the transaction closed, unless
    the client rejected the [rollback], whose failure is what the caller
    gets. *)
Theorem runCommand_atomic {Input : Type} (oracle : Oracle)
    (schema : SchemaType) (reducers : gmap string (gmap string Reducer))
    (command : DispatchCommand Input) (input : Input) (actorId : string)
    (now : Value) (w : World) :
  let result := runCommand oracle schema reducers command input actorId now w in
  (∃ trace, sent result.2 = sent w ++ (SqlBegin, []) :: trace) ∧
  ((result.1 = Normal tt ∧ last (sent result.2) = Some (SqlCommit, []) ∧
    working result.2 = None) ∨
   (committed result.2 = committed w ∧
    last (sent result.2) = Some (SqlRollback, []) ∧
    ((result.1 = Normal tt ∧ working result.2 = None) ∨
     ∃ n, result.1 = Throw (DbError n) ∧ fails oracle n SqlRollback = true))).
Proof.
  cbv zeta.
  destruct (runCommandBody oracle schema reducers command input actorId now w)
    as [[[]|e] w1] eqn:Hbody.
  - assert (Hrun :
      runCommand oracle schema reducers command input actorId now w
        = (Normal tt, w1)) by by rewrite runCommand_unfold, Hbody.
    pose proof (runCommandBody_normal _ _ _ _ _ _ _ _ _ Hbody) as Hlast.
    destruct (runCommand_commits_inv _ _ _ _ _ _ _ _ _ Hrun Hlast)
      as (_ & _ & _ & _ & _ & _ & _ & _ & _ & Hw).
    rewrite Hrun. simpl.
    split; [by eapply runCommandBody_begins|]. by left.
  - pose proof (runCommandBody_throw _ _ _ _ _ _ _ _ _ _ Hbody) as Ec.
    destruct (runCommandBody_begins _ _ _ _ _ _ _ _ _ _ Hbody) as [t Et].
    rewrite runCommand_unfold, Hbody.
    destruct (fails oracle (length (sent w1)) SqlRollback) eqn:Hf; simpl.
    + split; [exists (t ++ [(SqlRollback, [])]);
              by rewrite Et, <- app_assoc|].
      right. split; [done|]. split; [apply last_snoc|].
      right. by eexists.
    + split; [exists (t ++ [(SqlRollback, [])]);
              by rewrite Et, <- app_assoc|].
      right. split; [done|]. split; [apply last_snoc|]. by left.
Qed.

(** When the mutator throws, or planning (hence [validate]) throws
    whatever rows were locked, the run sends nothing but [begin],
    row-locking selects and a final [rollback]: no insert, update or
    log append is attempted, nothing is committed, and the console gets
    the one line that reports the failure. *)
Theorem runCommand_planning_failure {Input : Type} (oracle : Oracle)
    (schema : SchemaType) (reducers : gmap string (gmap string Reducer))
    (command : DispatchCommand Input) (input : Input) (actorId : string)
    (now : Value) (w : World) (e : Error) :
  mutator command input = Throw e ∨
  (∀ client locked, planActions command client input locked = Throw e) →
  let result := runCommand oracle schema reducers command input actorId now w in
  committed result.2 = committed w ∧
  (∃ e', console result.2 = console w ++ [LogFailed e']) ∧
  ∃ trace,
    sent result.2 = sent w ++ trace ++ [(SqlRollback, [])] ∧
    Forall (λ qp, isRead qp.1) trace.
Proof.
  intros Hfail. cbv zeta.
  destruct (lockAndPlan oracle schema command input w) as [[p|e'] w0] eqn:Hplan.
  { destruct Hfail as [Hm|Hp].
    - apply lockAndPlan_mutator in Hplan as [m Hm']. congruence.
    - destruct p as [sel planned].
      apply lockAndPlan_planned in Hplan as (client & locked & Hp').
      rewrite Hp in Hp'. done. }
  pose proof (lockAndPlan_lockPhase _ _ _ _ _ _ _ Hplan)
    as (_ & Ec & Econ & t & Et & Ft).
  rewrite runCommand_unfold, runCommandBody_decompose.
  rewrite (bind_throw _ _ _ _ _ Hplan).
  destruct (fails oracle (length (sent w0)) SqlRollback); simpl;
    (split; [done|]); (split; [exists e'; by rewrite Econ|]);
    exists t; (split; [by rewrite Et, app_assoc|done]).
Qed.

Lemma runCommand_planning_failure_witness :
  let result :=
    Demo.run Demo.healthy
      (mkDispatch "refuse" Demo.itemMutator
         (λ _ _ _, Throw (Thrown (VStr "invalid"))))
      [("id", VStr "r1")] Demo.world5 in
  committed result.2 = committed Demo.world5 ∧
  (∃ e', console result.2 = console Demo.world5 ++ [LogFailed e']) ∧
  ∃ trace,
    sent result.2 = sent Demo.world5 ++ trace ++ [(SqlRollback, [])] ∧
    Forall (λ qp, isRead qp.1) trace.
Proof.
  apply (runCommand_planning_failure Demo.healthy Demo.schema
           (reducers Demo.registry)
           (mkDispatch "refuse" Demo.itemMutator
              (λ _ _ _, Throw (Thrown (VStr "invalid"))))
           [("id", VStr "r1")] "actor" (VNum 0) Demo.world5
           (Thrown (VStr "invalid"))).
  right. intros client locked. reflexivity.
Defined.

(** ** Planned elements that are not applied *)





(** ** Objects: assignment and spread *)

Lemma aget_aset_eq {V} (k : string) (v : V) (o : Assoc V) :
  aget k (aset k v o) = Some v.
Proof.
  induction o as [|[k' v'] o IH]; simpl.
  - by rewrite String.eqb_refl.
  - destruct (String.eqb_spec k k') as [->|Hne]; simpl.
    + by rewrite String.eqb_refl.
    + destruct (String.eqb_spec k k'); [done|exact IH].
Qed.

Lemma aget_aset_ne {V} (k k' : string) (v : V) (o : Assoc V) :
  k' ≠ k → aget k' (aset k v o) = aget k' o.
Proof.
  intros Hne. induction o as [|[k0 v0] o IH]; simpl.
  - by destruct (String.eqb_spec k' k).
  - destruct (String.eqb_spec k k0) as [->|Hk]; simpl.
    + destruct (String.eqb_spec k' k0); [done|].
      by destruct (String.eqb_spec k' k0).
    + destruct (String.eqb_spec k' k0); [done|exact IH].
Qed.

Lemma aset_fresh {V} (k : string) (v : V) (o : Assoc V) :
  k ∉ akeys o → aset k v o = o ++ [(k, v)].
Proof.
  induction o as [|[k' v'] o IH]; simpl; [done|].
  intros Hk. apply not_elem_of_cons in Hk as [Hne Hk].
  destruct (String.eqb_spec k k'); [done|]. by rewrite IH.
Qed.

Lemma aspread_snoc {V} (a b : Assoc V) (k : string) (v : V) :
  aspread a (b ++ [(k, v)]) = aset k v (aspread a b).
Proof. unfold aspread. by rewrite foldl_snoc. Qed.

Lemma aget_aspread {V} (k : string) (a b : Assoc V) :
  aget k (aspread a b) =
    match aget k (reverse b) with
    | Some v => Some v
    | None => aget k a
    end.
Proof.
  induction b as [|[k' v'] b IH] using rev_ind; [done|].
  rewrite aspread_snoc, reverse_snoc. simpl.
  destruct (String.eqb_spec k k') as [->|Hne].
  - apply aget_aset_eq.
  - by rewrite aget_aset_ne.
Qed.

Lemma aspread_fresh {V} (a b : Assoc V) :
  NoDup (akeys b) → (∀ k, k ∈ akeys b → k ∉ akeys a) →
  aspread a b = a ++ b.
Proof.
  revert a. induction b as [|[k v] b IH]; intros a Hnd Hdis; simpl.
  - by rewrite app_nil_r.
  - apply NoDup_cons in Hnd as [Hk Hnd].
    unfold aspread in *. simpl.
    rewrite aset_fresh by (apply Hdis; simpl; apply list_elem_of_here).
    rewrite IH; [by rewrite <- app_assoc|done|].
    intros k' Hk'. unfold akeys. rewrite map_app. simpl.
    rewrite elem_of_app, list_elem_of_singleton.
    intros [Hin| ->]; [|done].
    eapply Hdis; [|exact Hin]. simpl. by apply list_elem_of_further.
Qed.

(** ** What a committed create event persists *)

Lemma compiled_insert_names (schema : SchemaType) (table : string) (q : Sql)
    (names : list string) :
  createForTable (processSchema schema) !! table = Some q →
  namesForTable (processSchema schema) !! table = Some names →
  q = SqlInsertReturning table names (seq 1 (length names)).
Proof.
  destruct (compiled_tables schema table)
    as [(columns & Hn & _ & H & _)|(_ & _ & H & _)]; rewrite H; [|done].
  rewrite Hn. intros [= <-] [= <-].
  unfold compiledInsert, compiledNames, akeys. by rewrite length_map.
Qed.

Lemma zip_fmap_self {A B} (f : A → B) (l : list A) :
  zip l (f <$> l) = (λ x, (x, f x)) <$> l.
Proof. induction l as [|x l IH]; simpl; [done|]. f_equal. exact IH. Qed.

Lemma fmap_zip_snd {A B C} (h : B → C) (l : list A) (k : list B) :
  (λ p : A * B, (p.1, h p.2)) <$> zip l k = zip l (h <$> k).
Proof.
  revert k. induction l as [|x l IH]; intros [|y k]; simpl; try done.
  f_equal. apply IH.
Qed.

Lemma params_in_order (rowData : list Value) :
  (λ p, orNull (param rowData p)) <$> seq 1 (length rowData)
    = orNull <$> rowData.
Proof.
  apply list_eq. intros i. rewrite !list_lookup_fmap.
  destruct (decide (i < length rowData)) as [Hlt|Hge].
  - rewrite lookup_seq_lt by done. simpl. unfold param.
    replace (S i - 1) with i by lia.
    destruct (lookup_lt_is_Some_2 _ _ Hlt) as [v ->]. done.
  - rewrite lookup_seq_ge by lia.
    by rewrite (lookup_ge_None_2 rowData i) by lia.
Qed.

Lemma insertedRow_columns (defaultId : Value) (names : list string)
    (rowData : list Value) :
  NoDup names → "id" ∉ names → length rowData = length names →
  insertedRow defaultId names (seq 1 (length names)) rowData
    = ("id", defaultId) :: zip names (orNull <$> rowData).
Proof.
  intros Hnd Hid Hlen. unfold insertedRow.
  transitivity
    (aspread [("id", defaultId)]
       ((λ np : string * nat, (np.1, orNull (param rowData np.2)))
          <$> zip names (seq 1 (length names)))).
  { unfold aspread. by rewrite foldl_fmap. }
  rewrite (fmap_zip_snd (λ p, orNull (param rowData p)) names
             (seq 1 (length names))).
  rewrite <- Hlen, params_in_order.
  change (aspread [("id", defaultId)] (zip names (orNull <$> rowData))
            = [("id", defaultId)] ++ zip names (orNull <$> rowData)).
  assert (Hkeys : akeys (zip names (orNull <$> rowData)) = names).
  { unfold akeys. apply fst_zip. rewrite length_fmap. lia. }
  apply aspread_fresh; rewrite Hkeys; [done|].
  intros k Hk. simpl. rewrite list_elem_of_singleton. by intros ->.
Qed.

Lemma orNull_idem (v : Value) : orNull (orNull v) = orNull v.
Proof. by destruct v. Qed.

Lemma applyCreate_inv (oracle : Oracle) (schema : SchemaType)
    (actorId now : Value) (creator : Value → Completion Value)
    (eventName : string) (table data : Value) (w w' : World) :
  applyCreate oracle schema actorId now creator eventName table data w
    = (Normal tt, w') →
  ∃ row names rowData rows id w1,
    creator data = Normal row ∧
    namesForTable (processSchema schema) !! toKey table = Some names ∧
    projectRow row names = Normal rowData ∧
    query oracle
      (SqlInsertReturning (toKey table) names (seq 1 (length names)))
      rowData w = (Normal rows, w1) ∧
    firstCell rows = VStr id ∧
    query oracle SqlAddEvent [VStr eventName; table; VStr id; actorId; data; now]
      w1 = (Normal [], w').
Proof.
  unfold applyCreate. intros H.
  apply bind_inv_normal in H as (row & w0 & Hc & H).
  unfold lift in Hc. injection Hc as Hc <-.
  apply bind_inv_normal in H as (names & w0 & Hn & H).
  destruct (namesForTable (processSchema schema) !! toKey table)
    as [names'|] eqn:En; [|done].
  injection Hn as -> <-.
  apply bind_inv_normal in H as (rowData & w0 & Hp & H).
  unfold lift in Hp. injection Hp as Hp <-.
  apply bind_inv_normal in H as (q & w0 & Hq & H).
  destruct (createForTable (processSchema schema) !! toKey table)
    as [q'|] eqn:Eq; [|done].
  injection Hq as -> <-.
  rewrite (compiled_insert_names _ _ _ _ Eq En) in H.
  apply bind_inv_normal in H as (rows & w1 & Hins & H).
  destruct (firstCell rows) as [| | | |id| |] eqn:Hid; try done.
  apply bind_inv_normal in H as (rows' & w2 & Hadd & H).
  injection H as <-.
  assert (rows' = []) as ->.
  { apply query_data in Hadd as (_ & s' & Hex & _); [|done].
    simpl in Hex. by injection Hex. }
  by eexists _, _, _, _, _, _.
Qed.

(** A run that plans one create event for a registered creator and
    commits has persisted exactly this: one new row at the end of the
    event's table, made of the identifier that the store generated
    followed by the table's columns in order, each holding the creator's
    value for it or [null] where the creator gave none; and one log entry
    whose row id is that identifier.  The other tables are unchanged. *)
Theorem create_commit_persists {Input : Type} (oracle : Oracle)
    (schema : SchemaType) (reducers : gmap string (gmap string Reducer))
    (command : DispatchCommand Input) (input : Input) (actorId : string)
    (now : Value) (eventName : string) (table data : Value)
    (creator : Value → Completion Value) (names : list string)
    (w w1 : World) :
  eventName ≠ "" →
  reducerFor reducers (toKey table) eventName = Some (ReducerCreate creator) →
  (∀ client locked,
     planActions command client input locked
       = Normal [Some (CreationEvent eventName table data)]) →
  namesForTable (processSchema schema) !! toKey table = Some names →
  NoDup names → "id" ∉ names →
  runCommand oracle schema reducers command input actorId now w
    = (Normal tt, w1) →
  last (sent w1) = Some (SqlCommit, []) →
  ∃ id row old n,
    creator data = Normal row ∧
    generatedId oracle n = Some id ∧
    tables (current w) !! toKey table = Some old ∧
    tables (committed w1) =
      <[toKey table :=
          old ++ [("id", VStr id)
                  :: ((λ c, (c, orNull (vget c row))) <$> names)]]>
        (tables (current w)) ∧
    events (committed w1) =
      events (current w) ++
      [mkLogEntry (VStr eventName) table (VStr id) (VStr actorId) data now].
Proof.
  intros Hname Hred Hplan Hn Hnd Hid Hrun Hlast.
  destruct (runCommand_commits_inv _ _ _ _ _ _ _ _ _ Hrun Hlast)
    as (sel & planned & w0 & sel' & wa & Hlp & Happly & Ecur & Hc & Hw).
  destruct (lockAndPlan_planned _ _ _ _ _ _ _ _ Hlp) as (client & locked & Hp).
  rewrite Hplan in Hp. injection Hp as <-.
  unfold applyEvents in Happly. rewrite foldM_cons in Happly.
  apply bind_inv_normal in Happly as (s1 & wb & Hev & [= _ <-]).
  unfold applyEvent in Hev. simpl in Hev.
  destruct (String.eqb_spec eventName ""); [done|].
  rewrite Hred in Hev.
  apply bind_inv_normal in Hev as ([] & wc & Hev & [= _ <-]).
  apply applyCreate_inv in Hev
    as (row & names' & rowData & rows & id & wi &
        Hcr & Hn' & Hpr & Hins & Hcell & Hadd).
  rewrite Hn in Hn'. injection Hn' as <-.
  pose proof (projectRow_length _ _ _ Hpr) as Hlen.
  apply query_data in Hins as (_ & s' & Hex & ->); [|done].
  simpl in Hex.
  destruct (tables (current w0) !! toKey table) as [old|] eqn:Hold; [|done].
  injection Hex as <- <-.
  rewrite (insertedRow_columns _ _ _ Hnd Hid Hlen) in Hcell.
  rewrite (insertedRow_columns _ _ _ Hnd Hid Hlen) in Hadd.
  apply query_addEvent in Hadd as [Et Ee].
  rewrite current_setCurrent in Et, Ee. simpl in Et, Ee, Hcell.
  destruct (generatedId oracle (length (sent w0))) as [gen|] eqn:Hgen;
    [|done].
  injection Hcell as ->.
  exists id, row, old, (length (sent w0)).
  rewrite Ecur in Hold, Et, Ee. rewrite Hc, Et, Ee.
  rewrite (projectRow_normal _ _ _ Hpr), <- list_fmap_compose, zip_fmap_self.
  repeat split; try done.
  do 4 f_equal. apply list_fmap_ext. intros _ c _. simpl.
  by rewrite orNull_idem.
Qed.

Lemma create_commit_persists_witness :
  ∃ id row old n,
    Demo.itemCreator (VObj [("name", VStr "a")]) = Normal row ∧
    generatedId Demo.healthy n = Some id ∧
    tables (current Demo.world0) !! "items" = Some old ∧
    tables (committed
              (Demo.run Demo.healthy Demo.createItem [("name", VStr "a")]
                 Demo.world0).2) =
      <["items" :=
          old ++ [("id", VStr id)
                  :: ((λ c, (c, orNull (vget c row))) <$> ["name"; "value"])]]>
        (tables (current Demo.world0)) ∧
    events (committed
              (Demo.run Demo.healthy Demo.createItem [("name", VStr "a")]
                 Demo.world0).2) =
      events (current Demo.world0) ++
      [mkLogEntry (VStr "createItem") (VStr "items") (VStr id) (VStr "actor")
         (VObj [("name", VStr "a")]) (VNum 0)].
Proof.
  apply (create_commit_persists Demo.healthy Demo.schema
           (reducers Demo.registry) Demo.createItem [("name", VStr "a")]
           "actor" (VNum 0) "createItem" (VStr "items")
           (VObj [("name", VStr "a")]) Demo.itemCreator ["name"; "value"]
           Demo.world0).
  - discriminate.
  - vm_compute. reflexivity.
  - intros client locked. reflexivity.
  - vm_compute. reflexivity.
  - repeat constructor; set_solver.
  - set_solver.
  - vm_compute. reflexivity.
  - vm_compute. reflexivity.
Defined.

(** ** What a committed modify event persists *)

Lemma aget_zip_seq (names : list string) (j : nat) (c : string) :
  match aget c (zip names (seq j (length names))) with
  | Some p => ∃ i, p = j + i ∧ names !! i = Some c
  | None => c ∉ names
  end.
Proof.
  revert j. induction names as [|n names IH]; intros j; simpl.
  - apply not_elem_of_nil.
  - destruct (String.eqb_spec c n) as [->|Hne].
    + exists 0. split; [lia|done].
    + specialize (IH (S j)).
      destruct (aget c (zip names (seq (S j) (length names)))) as [p|].
      * destruct IH as (i & -> & Hi). exists (S i). split; [lia|done].
      * by apply not_elem_of_cons.
Qed.

Lemma updateRow_columns (partial : Value) (names : list string)
    (rowData : list Value) (last : Value) (row : Obj) :
  projectRow partial names = Normal rowData →
  updateRow (zip names (seq 1 (length names))) (rowData ++ [last]) row =
    map (λ cv : string * Value,
           (cv.1, if decide (cv.1 ∈ names)
                  then coalesce (orNull (vget cv.1 partial)) cv.2
                  else cv.2)) row.
Proof.
  intros Hpr. unfold updateRow. apply map_ext. intros [c v]. simpl.
  f_equal. pose proof (aget_zip_seq names 1 c) as Hz.
  destruct (aget c (zip names (seq 1 (length names)))) as [p|].
  - destruct Hz as (i & -> & Hi).
    rewrite decide_True by (by eapply list_elem_of_lookup_2).
    f_equal. unfold param. replace (1 + i - 1) with i by lia.
    rewrite (projectRow_normal _ _ _ Hpr).
    rewrite lookup_app_l
      by (rewrite length_fmap; by eapply lookup_lt_Some).
    by rewrite list_lookup_fmap, Hi.
  - by rewrite decide_False.
Qed.

(** ** The lock phase *)

Lemma lockRow_step (oracle : Oracle) (schema : SchemaType) (mutator : Mutator)
    (acc acc' : Obj * Obj) (field : string) (w w' : World) :
  lockRow oracle schema mutator acc field w = (Normal acc', w') →
  current w' = current w ∧
  acc' = match aget field mutator, lockedFor schema (current w) mutator field with
         | Some target, Some v =>
             (aset (mt_id target) v acc.1, aset field v acc.2)
         | _, _ => acc
         end.
Proof.
  unfold lockRow, lockedFor.
  destruct (aget field mutator) as [target|]; simpl.
  2:{ by intros [= <- <-]. }
  intros H.
  apply bind_inv_normal in H as (q & w0 & Hq & H).
  destruct (selectUpdateForTable (processSchema schema) !! mt_table target)
    as [q'|] eqn:Eq; [|done].
  injection Hq as -> <-.
  destruct (compiled_tables schema (mt_table target))
    as [(columns & Hn & Hs & _)|(_ & Hs & _)]; rewrite Hs in Eq; [|done].
  injection Eq as <-. rewrite Hn. simpl.
  apply bind_inv_normal in H as (rows & w1 & Hsel & H).
  pose proof (query_select_sameData _ _ _ _ _ _ _ Hsel) as (Ecur & _).
  apply query_data in Hsel as (_ & s' & Hex & ->); [|done].
  unfold compiledSelect in Hex. simpl in Hex.
  destruct (tables (current w) !! mt_table target) as [rs|]; [|done].
  simpl in Hex. injection Hex as <- <-. simpl.
  destruct (filter (λ r : Obj, hasId (mt_id target) r = true) rs)
    as [|row rest]; simpl in *.
  - injection H as <- <-. by rewrite current_setCurrent.
  - rewrite Hn in H. simpl in H. injection H as <- <-.
    by rewrite current_setCurrent.
Qed.

Lemma lockedFor_target (schema : SchemaType) (s : Store) (mutator : Mutator)
    (field : string) (v : Value) :
  lockedFor schema s mutator field = Some v →
  ∃ target, aget field mutator = Some target.
Proof.
  unfold lockedFor. destruct (aget field mutator) as [target|]; [|done].
  by exists target.
Qed.

Lemma lockRows_loop (oracle : Oracle) (schema : SchemaType)
    (mutator : Mutator) (ks : list string) (acc res : Obj * Obj)
    (w w' : World) :
  foldM (lockRow oracle schema mutator) acc ks w = (Normal res, w') →
  current w' = current w ∧
  (∀ field,
     aget field res.2 =
       if decide (field ∈ ks) then
         match lockedFor schema (current w) mutator field with
         | Some v => Some v
         | None => aget field acc.2
         end
       else aget field acc.2) ∧
  (∀ id v,
     aget id res.1 = Some v →
     aget id acc.1 = Some v ∨
     ∃ field target,
       field ∈ ks ∧ aget field mutator = Some target ∧ mt_id target = id ∧
       lockedFor schema (current w) mutator field = Some v) ∧
  (∀ id, is_Some (aget id acc.1) → is_Some (aget id res.1)) ∧
  (∀ field target,
     field ∈ ks → aget field mutator = Some target →
     is_Some (lockedFor schema (current w) mutator field) →
     is_Some (aget (mt_id target) res.1)).
Proof.
  revert acc w. induction ks as [|k ks IH]; intros acc w.
  - intros [= <- <-]. split; [done|]. split.
    { intros field. rewrite decide_False; [done|apply not_elem_of_nil]. }
    split; [by left|]. split; [done|].
    intros ? ? H. by apply not_elem_of_nil in H.
  - rewrite foldM_cons. intros H.
    apply bind_inv_normal in H as (acc1 & w1 & Hstep & H).
    apply lockRow_step in Hstep as [Ecur Hacc].
    apply IH in H as (Ecur' & Hmd & Hsound & Hkeep & Hcover).
    rewrite Ecur in *.
    split; [congruence|]. split; [|split; [|split]].
    + intros field. rewrite Hmd.
      destruct (decide (field = k)) as [->|Hne].
      * rewrite (decide_True (P := k ∈ k :: ks)) by apply list_elem_of_here.
        subst acc1.
        destruct (aget k mutator) as [target|] eqn:Ht.
        -- destruct (lockedFor schema (current w) mutator k) as [v|] eqn:Hl;
             simpl; [|by destruct (decide (k ∈ ks))].
           destruct (decide (k ∈ ks)); [done|apply aget_aset_eq].
        -- assert (lockedFor schema (current w) mutator k = None) as ->
             by (unfold lockedFor; by rewrite Ht).
           by destruct (decide (k ∈ ks)).
      * assert (Hacc2 : aget field acc1.2 = aget field acc.2).
        { subst acc1. destruct (aget k mutator); [|done].
          destruct (lockedFor schema (current w) mutator k); [|done].
          simpl. by apply aget_aset_ne. }
        rewrite Hacc2.
        destruct (decide (field ∈ ks)) as [Hin|Hnin].
        -- by rewrite decide_True by (by apply list_elem_of_further).
        -- rewrite decide_False; [done|].
           intros Hin. apply elem_of_cons in Hin as [?|?]; done.
    + intros id v Hv. apply Hsound in Hv as [Hv|Hv].
      * subst acc1. destruct (aget k mutator) as [target|] eqn:Ht; [|by left].
        destruct (lockedFor schema (current w) mutator k) as [v'|] eqn:Hl;
          [|by left].
        simpl in Hv. destruct (decide (id = mt_id target)) as [->|Hne].
        -- rewrite aget_aset_eq in Hv. injection Hv as ->.
           right. exists k, target. split; [apply list_elem_of_here|done].
        -- rewrite aget_aset_ne in Hv by done. by left.
      * destruct Hv as (field & target & Hin & Hv). right.
        exists field, target. split; [by apply list_elem_of_further|done].
    + intros id Hid. apply Hkeep. subst acc1.
      destruct (aget k mutator) as [target|]; [|done].
      destruct (lockedFor schema (current w) mutator k); [|done]. simpl.
      destruct (decide (id = mt_id target)) as [->|Hne].
      * rewrite aget_aset_eq. by eexists.
      * by rewrite aget_aset_ne.
    + intros field target Hin Ht Hl.
      apply elem_of_cons in Hin as [->|Hin]; [|by eapply Hcover].
      apply Hkeep. subst acc1. rewrite Ht.
      destruct Hl as [v ->]. simpl. rewrite aget_aset_eq. by eexists.
Qed.

Lemma lockedRow_columns (id : string) (names : list string) (row : Obj) :
  NoDup names → "id" ∉ names →
  lockedRow id names row
    = ("id", VStr id) :: ((λ c, (c, default VNull (aget c row))) <$> names).
Proof.
  intros Hnd Hid. unfold lockedRow.
  set (cell := λ c : string, default VNull (aget c row)).
  transitivity
    (aspread [("id", VStr id)]
       ((λ fi : nat * string,
           (fi.2, default VUndefined ((cell <$> names) !! fi.1)))
          <$> imap (λ index sqlField, (index, sqlField)) names)).
  { unfold aspread. by rewrite foldl_fmap. }
  assert (E : (λ fi : nat * string,
                 (fi.2, default VUndefined ((cell <$> names) !! fi.1)))
                <$> imap (λ index sqlField, (index, sqlField)) names
              = (λ c, (c, cell c)) <$> names).
  { apply list_eq. intros i.
    rewrite !list_lookup_fmap, list_lookup_imap.
    destruct (names !! i) as [c|] eqn:Hi; [|done]. simpl.
    by rewrite list_lookup_fmap, Hi. }
  rewrite E.
  assert (Hkeys : akeys ((λ c, (c, cell c)) <$> names) = names).
  { unfold akeys. rewrite <- list_fmap_compose. apply list_fmap_id. }
  change (aspread [("id", VStr id)] ((λ c, (c, cell c)) <$> names)
            = [("id", VStr id)] ++ ((λ c, (c, cell c)) <$> names)).
  apply aspread_fresh; rewrite Hkeys; [done|].
  intros k Hk. simpl. rewrite list_elem_of_singleton. by intros ->.
Qed.

(** The lock phase reads and never writes.  When it completes, the object
    handed to planning has, for every field of the mutator, the row that
    the field names as the store holds it, and no property for a field
    whose row does not exist; every entry of the cache used by the modify
    branch is such a row, filed under its id; and every row found is in
    the cache.  For a table whose columns are distinct and do not include
    [id], the object built for a row is its id followed by the table's
    columns in order. *)
Theorem lockRows_materializes (oracle : Oracle) (schema : SchemaType)
    (mutator : Mutator) (w w' : World) (selectedObjects mutatorData : Obj) :
  lockRows oracle schema mutator w
    = (Normal (selectedObjects, mutatorData), w') →
  current w' = current w ∧
  (∀ field,
     aget field mutatorData = lockedFor schema (current w) mutator field) ∧
  (∀ id v,
     aget id selectedObjects = Some v →
     ∃ field target,
       aget field mutator = Some target ∧ mt_id target = id ∧
       lockedFor schema (current w) mutator field = Some v) ∧
  (∀ field target,
     aget field mutator = Some target →
     is_Some (lockedFor schema (current w) mutator field) →
     is_Some (aget (mt_id target) selectedObjects)) ∧
  (∀ id names row,
     NoDup names → "id" ∉ names →
     lockedRow id names row
       = ("id", VStr id)
         :: ((λ c, (c, default VNull (aget c row))) <$> names)).
Proof.
  unfold lockRows. intros H.
  apply lockRows_loop in H as (Ecur & Hmd & Hsound & _ & Hcover).
  simpl in *. split; [done|]. split; [|split; [|split]].
  - intros field. rewrite Hmd.
    destruct (decide (field ∈ akeys mutator)) as [Hin|Hnin].
    + by destruct (lockedFor schema (current w) mutator field).
    + destruct (lockedFor schema (current w) mutator field) as [v|] eqn:Hl;
        [|done].
      apply lockedFor_target in Hl as [target Ht].
      apply aget_akeys in Ht. done.
  - intros id v Hv. apply Hsound in Hv as [Hv|Hv]; [done|].
    destruct Hv as (field & target & _ & Hv). by exists field, target.
  - intros field target Ht Hl. eapply Hcover; [|exact Ht|exact Hl].
    by eapply aget_akeys.
  - intros. by apply lockedRow_columns.
Qed.

Lemma lockRows_materializes_witness :
  ∃ mutatorData,
    (∀ field,
       aget field mutatorData =
         lockedFor Demo.schema (current Demo.world5)
           [("item", mkTarget "items" "r1"); ("other", mkTarget "items" "r9")]
           field) ∧
    aget "item" mutatorData = Some (VObj Demo.item5) ∧
    aget "other" mutatorData = None.
Proof.
  destruct (lockRows_materializes Demo.healthy Demo.schema
              [("item", mkTarget "items" "r1"); ("other", mkTarget "items" "r9")]
              Demo.world5
              (lockRows Demo.healthy Demo.schema
                 [("item", mkTarget "items" "r1");
                  ("other", mkTarget "items" "r9")] Demo.world5).2
              [("r1", VObj Demo.item5)] [("item", VObj Demo.item5)])
    as (_ & Hmd & _).
  { vm_compute. reflexivity. }
  exists [("item", VObj Demo.item5)].
  split; [exact Hmd|]. split; reflexivity.
Defined.

(** ** What a committed modify event persists, continued *)

Lemma cached_aset_eq (k : string) (v : Value) (o : Obj) :
  cached k (aset k v o) = Some v.
Proof. unfold cached. by rewrite aget_aset_eq. Qed.

Lemma cached_plain (k : string) (o : Obj) :
  k ∉ objectPrototype → cached k o = aget k o.
Proof.
  intros Hplain. unfold cached, inherited.
  destruct (aget k o); [done|]. by rewrite decide_False.
Qed.

Lemma cached_inv (k : string) (o : Obj) (v : Value) :
  cached k o = Some v →
  aget k o = Some v ∨
  (aget k o = None ∧ k ∈ objectPrototype ∧ v = VBuiltin k).
Proof.
  unfold cached, inherited. destruct (aget k o); [by left|].
  destruct (decide (k ∈ objectPrototype)); [|done].
  intros [= <-]. by right.
Qed.

(** The cache that the lock phase hands to the loop holds only rows read
    from the store for the mutator's fields. *)
Lemma lockAndPlan_cache {Input : Type} (oracle : Oracle)
    (schema : SchemaType) (command : DispatchCommand Input) (input : Input)
    (w w0 : World) (selectedObjects : Obj) (planned : list (option ESEvent)) :
  lockAndPlan oracle schema command input w
    = (Normal (selectedObjects, planned), w0) →
  ∃ m,
    mutator command input = Normal m ∧
    ∀ id v,
      aget id selectedObjects = Some v →
      ∃ field target,
        aget field m = Some target ∧ mt_id target = id ∧
        lockedFor schema (current w) m field = Some v.
Proof.
  unfold lockAndPlan. intros H.
  apply bind_inv_normal in H as (rows & w1 & Hb & H).
  apply query_begin in Hb as [_ (Ecur & _)].
  apply bind_inv_normal in H as (m & w2 & Hm & H).
  unfold lift in Hm. injection Hm as Hm <-.
  apply bind_inv_normal in H as (locked & w3 & Hl & H).
  apply bind_inv_normal in H as (events0 & w4 & Hp & H).
  injection H as <- _ _.
  exists m. split; [done|]. intros id v Hv.
  unfold lockRows in Hl. apply lockRows_loop in Hl as (_ & _ & Hsound & _).
  apply Hsound in Hv as [Hv|(field & target & _ & Ht & Hid & Hlf)]; [done|].
  exists field, target. by rewrite <- Ecur.
Qed.

(** A committing run whose plan is the one modify event: what the updater
    was called on and what is committed. *)
Lemma planned_modify_commit {Input : Type} (oracle : Oracle)
    (schema : SchemaType) (reducers : gmap string (gmap string Reducer))
    (command : DispatchCommand Input) (input : Input) (actorId : string)
    (now : Value) (eventName rowId : string) (table data : Value)
    (updater : Value → Value → Completion Value) (w w0 w1 : World)
    (selectedObjects : Obj) :
  eventName ≠ "" →
  reducerFor reducers (toKey table) eventName = Some (ReducerModify updater) →
  lockAndPlan oracle schema command input w
    = (Normal (selectedObjects,
               [Some (ModificationEvent eventName rowId table data)]), w0) →
  runCommand oracle schema reducers command input actorId now w
    = (Normal tt, w1) →
  last (sent w1) = Some (SqlCommit, []) →
  ∃ prev partial names rowData old,
    cached rowId selectedObjects = Some prev ∧
    updater prev data = Normal partial ∧
    namesForTable (processSchema schema) !! toKey table = Some names ∧
    projectRow partial names = Normal rowData ∧
    tables (current w) !! toKey table = Some old ∧
    tables (committed w1) =
      <[toKey table :=
          (λ row : Obj,
             if hasId rowId row
             then updateRow (zip names (seq 1 (length names)))
                    (rowData ++ [VStr rowId]) row
             else row) <$> old]> (tables (current w)) ∧
    events (committed w1) =
      events (current w) ++
      [mkLogEntry (VStr eventName) table (VStr rowId) (VStr actorId) data now].
Proof.
  intros Hname Hred Hlp0 Hrun Hlast.
  destruct (runCommand_commits_inv _ _ _ _ _ _ _ _ _ Hrun Hlast)
    as (sel & planned & w0' & sel' & wa & Hlp & Happly & Ecur & Hc & Hw).
  rewrite Hlp0 in Hlp. injection Hlp as <- <- <-.
  unfold applyEvents in Happly. rewrite foldM_cons in Happly.
  apply bind_inv_normal in Happly as (s1 & wb & Hev & [= _ <-]).
  unfold applyEvent in Hev. simpl in Hev.
  destruct (String.eqb_spec eventName ""); [done|].
  rewrite Hred in Hev.
  apply applyModify_normal in Hev
    as (prev & partial & names & rowData & wu &
        Hprev & Hu & _ & Hn & Hpr & Hupd & Hadd).
  pose proof (query_update_events _ _ _ _ _ _ _ _ Hupd) as Eev.
  apply query_data in Hupd as (_ & s' & Hex & ->); [|done].
  apply exec_update in Hex as (_ & old & Hold & Hcase).
  rewrite (param_last _ _ _ (projectRow_length _ _ _ Hpr)) in Hcase.
  destruct Hcase as [(id & [= <-] & Ht)|[? _]]; [|done].
  apply query_addEvent in Hadd as [Et Ee].
  rewrite current_setCurrent in Et, Eev, Ee.
  exists prev, partial, names, rowData, old.
  rewrite Hc, Et, Ee, Ht, Eev. rewrite Ecur in *. by repeat split.
Qed.

(** A run that plans one modify event for a registered updater and
    commits has persisted exactly this.  The updater was called on what
    the cache built by the lock phase yields for the event's row id: the
    row of that id as the store held it, named by a field of the mutator,
    or else, no such row being cached and the id being the name of a
    member of [Object.prototype], that member (the cache having kept
    [Object.prototype] as its prototype).  In the event's table, every row with the event's row id has
    each declared column set to the value that this call of the updater
    returned for it, and keeps its value where the updater gave none or
    gave [null]; every other row, every undeclared column and every other
    table is as before; and one log entry for the event is appended. *)
Theorem modify_commit_persists {Input : Type} (oracle : Oracle)
    (schema : SchemaType) (reducers : gmap string (gmap string Reducer))
    (command : DispatchCommand Input) (input : Input) (actorId : string)
    (now : Value) (eventName rowId : string) (table data : Value)
    (updater : Value → Value → Completion Value) (w w0 w1 : World)
    (selectedObjects : Obj) :
  eventName ≠ "" →
  reducerFor reducers (toKey table) eventName = Some (ReducerModify updater) →
  lockAndPlan oracle schema command input w
    = (Normal (selectedObjects,
               [Some (ModificationEvent eventName rowId table data)]), w0) →
  plainCache selectedObjects →
  runCommand oracle schema reducers command input actorId now w
    = (Normal tt, w1) →
  last (sent w1) = Some (SqlCommit, []) →
  ∃ prev partial names old,
    cached rowId selectedObjects = Some prev ∧
    ((∃ m field target,
        mutator command input = Normal m ∧
        aget field m = Some target ∧ mt_id target = rowId ∧
        lockedFor schema (current w) m field = Some prev) ∨
     (aget rowId selectedObjects = None ∧ rowId ∈ objectPrototype ∧
      prev = VBuiltin rowId)) ∧
    updater prev data = Normal partial ∧
    namesForTable (processSchema schema) !! toKey table = Some names ∧
    tables (current w) !! toKey table = Some old ∧
    tables (committed w1) =
      <[toKey table :=
          (λ row : Obj,
             if hasId rowId row
             then map (λ cv : string * Value,
                         (cv.1, if decide (cv.1 ∈ names)
                                then coalesce (orNull (vget cv.1 partial)) cv.2
                                else cv.2)) row
             else row) <$> old]> (tables (current w)) ∧
    events (committed w1) =
      events (current w) ++
      [mkLogEntry (VStr eventName) table (VStr rowId) (VStr actorId) data now].
Proof.
  intros Hname Hred Hlp _ Hrun Hlast.
  destruct (planned_modify_commit _ _ _ _ _ _ _ _ _ _ _ _ _ _ _ _
              Hname Hred Hlp Hrun Hlast)
    as (prev & partial & names & rowData & old &
        Hprev & Hu & Hn & Hpr & Hold & Ht & Ee).
  exists prev, partial, names, old.
  split; [done|]. split.
  { destruct (cached_inv _ _ _ Hprev) as [Hown|Hinh]; [left|by right].
    destruct (lockAndPlan_cache _ _ _ _ _ _ _ _ Hlp) as (m & Hm & Hcache).
    destruct (Hcache _ _ Hown) as (field & target & H).
    by exists m, field, target. }
  repeat split; try done.
  rewrite Ht. f_equal. apply list_fmap_ext. intros _ row _. simpl.
  destruct (hasId rowId row); [|done].
  by apply updateRow_columns.
Qed.

Lemma modify_commit_persists_witness :
  ∃ names old,
    cached "r1" [("r1", VObj Demo.item5)] = Some (VObj Demo.item5) ∧
    lockedFor Demo.schema (current Demo.world5)
      [("item", mkTarget "items" "r1")] "item" = Some (VObj Demo.item5) ∧
    Demo.bumpUpdater (VObj Demo.item5) (VObj [("id", VStr "r1")])
      = Normal (VObj [("value", VNum 6)]) ∧
    namesForTable (processSchema Demo.schema) !! "items" = Some names ∧
    tables (current Demo.world5) !! "items" = Some old ∧
    tables (committed
              (Demo.run Demo.healthy Demo.bump [("id", VStr "r1")]
                 Demo.world5).2) =
      <["items" :=
          (λ row : Obj,
             if hasId "r1" row
             then map (λ cv : string * Value,
                         (cv.1, if decide (cv.1 ∈ names)
                                then coalesce
                                       (orNull
                                          (vget cv.1 (VObj [("value", VNum 6)])))
                                       cv.2
                                else cv.2)) row
             else row) <$> old]> (tables (current Demo.world5)) ∧
    events (committed
              (Demo.run Demo.healthy Demo.bump [("id", VStr "r1")]
                 Demo.world5).2) =
      events (current Demo.world5) ++
      [mkLogEntry (VStr "bump") (VStr "items") (VStr "r1") (VStr "actor")
         (VObj [("id", VStr "r1")]) (VNum 0)].
Proof.
  destruct (modify_commit_persists Demo.healthy Demo.schema
              (reducers Demo.registry) Demo.bump [("id", VStr "r1")]
              "actor" (VNum 0) "bump" "r1" (VStr "items")
              (VObj [("id", VStr "r1")]) Demo.bumpUpdater Demo.world5
              (lockAndPlan Demo.healthy Demo.schema Demo.bump
                 [("id", VStr "r1")] Demo.world5).2
              (Demo.run Demo.healthy Demo.bump [("id", VStr "r1")]
                 Demo.world5).2
              [("r1", VObj Demo.item5)])
    as (prev & partial & names & old & Hprev & Hlocked & Hu & Hn & Hold &
        Ht & Ee).
  - discriminate.
  - vm_compute. reflexivity.
  - vm_compute. reflexivity.
  - reflexivity.
  - vm_compute. reflexivity.
  - vm_compute. reflexivity.
  - assert (prev = VObj Demo.item5) as ->
      by (vm_compute in Hprev; by injection Hprev).
    assert (partial = VObj [("value", VNum 6)]) as ->
      by (vm_compute in Hu; by injection Hu).
    exists names, old.
    split; [vm_compute; reflexivity|]. split; [vm_compute; reflexivity|].
    split; [vm_compute; reflexivity|]. split; [exact Hn|].
    split; [exact Hold|]. split; [exact Ht|exact Ee].
Defined.

(** ** Several modify events on one row *)

(** When two modify events of one plan target the same row, the second
    updater is applied to the first one's merge: what the cache yields
    for the row id, which is the locked row or else, no row being cached
    under an id that is the name of a member of [Object.prototype], that
    member, with the first partial result spread over it.  The cache ends up holding the merge of both partial results
    under that row id, and its other entries are untouched.  A property
    of a merge is the partial result's when it has one, and the previous
    one otherwise. *)
Theorem modify_sees_merged_row (oracle : Oracle) (schema : SchemaType)
    (reducers : gmap string (gmap string Reducer)) (actorId now : Value)
    (selectedObjects selectedObjects' : Obj) (rowId : string)
    (n1 n2 : string) (t1 t2 d1 d2 : Value)
    (u1 u2 : Value → Value → Completion Value) (w w' : World) :
  n1 ≠ "" → n2 ≠ "" →
  reducerFor reducers (toKey t1) n1 = Some (ReducerModify u1) →
  reducerFor reducers (toKey t2) n2 = Some (ReducerModify u2) →
  applyEvents oracle schema reducers actorId now selectedObjects
    [Some (ModificationEvent n1 rowId t1 d1);
     Some (ModificationEvent n2 rowId t2 d2)] w
    = (Normal selectedObjects', w') →
  ∃ prev p1 p2,
    (aget rowId selectedObjects = Some prev ∨
     (aget rowId selectedObjects = None ∧ rowId ∈ objectPrototype ∧
      prev = VBuiltin rowId)) ∧
    u1 prev d1 = Normal p1 ∧
    u2 (VObj (aspread (spreadOf prev) (spreadOf p1))) d2 = Normal p2 ∧
    aget rowId selectedObjects' =
      Some (VObj (aspread (aspread (spreadOf prev) (spreadOf p1))
                    (spreadOf p2))) ∧
    (∀ k, k ≠ rowId → aget k selectedObjects' = aget k selectedObjects) ∧
    (∀ (a b : Obj) k,
       aget k (aspread a b) =
         match aget k (reverse b) with
         | Some v => Some v
         | None => aget k a
         end).
Proof.
  intros Hn1 Hn2 Hr1 Hr2 H. unfold applyEvents in H.
  rewrite foldM_cons in H.
  apply bind_inv_normal in H as (sel1 & w1 & H1 & H).
  rewrite foldM_cons in H.
  apply bind_inv_normal in H as (sel2 & w2 & H2 & [= <- <-]).
  unfold applyEvent in H1, H2. simpl in H1, H2.
  destruct (String.eqb_spec n1 ""); [done|].
  destruct (String.eqb_spec n2 ""); [done|].
  rewrite Hr1 in H1. rewrite Hr2 in H2.
  apply applyModify_normal in H1
    as (prev & p1 & ? & ? & ? & Hprev & Hu1 & -> & _).
  apply applyModify_normal in H2
    as (prev2 & p2 & ? & ? & ? & Hprev2 & Hu2 & -> & _).
  rewrite cached_aset_eq in Hprev2. injection Hprev2 as <-.
  exists prev, p1, p2. simpl in *.
  split; [by apply cached_inv|].
  split; [done|]. split; [done|].
  split; [apply aget_aset_eq|]. split; [|intros; apply aget_aspread].
  intros k Hk. by rewrite !aget_aset_ne.
Qed.

Lemma modify_sees_merged_row_witness :
  ∃ prev p1 p2,
    aget "r1" [("r1", VObj Demo.item5)] = Some prev ∧
    Demo.bumpUpdater prev (VObj []) = Normal p1 ∧
    Demo.bumpUpdater (VObj (aspread (spreadOf prev) (spreadOf p1))) (VObj [])
      = Normal p2 ∧
    p2 = VObj [("value", VNum 7)].
Proof.
  destruct (modify_sees_merged_row Demo.healthy Demo.schema
              (reducers Demo.registry) (VStr "actor") (VNum 0)
              [("r1", VObj Demo.item5)]
              [("r1", VObj [("id", VStr "r1"); ("name", VStr "a");
                            ("value", VNum 7)])]
              "r1" "bump" "bump" (VStr "items") (VStr "items")
              (VObj []) (VObj []) Demo.bumpUpdater Demo.bumpUpdater
              Demo.world5
              (applyEvents Demo.healthy Demo.schema (reducers Demo.registry)
                 (VStr "actor") (VNum 0) [("r1", VObj Demo.item5)]
                 [Some (ModificationEvent "bump" "r1" (VStr "items") (VObj []));
                  Some (ModificationEvent "bump" "r1" (VStr "items") (VObj []))]
                 Demo.world5).2)
    as (prev & p1 & p2 & Hprev & Hu1 & Hu2 & _).
  - discriminate.
  - discriminate.
  - vm_compute. reflexivity.
  - vm_compute. reflexivity.
  - vm_compute. reflexivity.
  - destruct Hprev as [Hprev|(Hnone & _)]; [|discriminate].
    exists prev, p1, p2. split; [exact Hprev|]. split; [exact Hu1|].
    split; [exact Hu2|].
    injection Hprev as <-. vm_compute in Hu1. injection Hu1 as <-.
    vm_compute in Hu2. by injection Hu2.
Defined.

(** ** [reduceRow] as it is *)

Lemma foldM_printRow (rows : list (list Value)) (w : World) :
  foldM printRow tt rows w =
    (Normal tt,
     mkWorld (committed w) (working w) (sent w)
       (console w ++
        ((λ row, LogPair (default VUndefined (row !! 0))
                         (default VUndefined (row !! 1))) <$> rows))).
Proof.
  revert w. induction rows as [|row rows IH]; intros w.
  - destruct w. simpl. by rewrite app_nil_r.
  - rewrite foldM_cons. unfold bind, printRow at 1, consoleLog.
    rewrite IH. simpl. by rewrite <- app_assoc.
Qed.

Lemma reduceRow_body_throw (oracle : Oracle) (table rowId : string)
    (w w1 : World) (e : Error) :
  working w = None →
  (query oracle SqlBegin [] ;;
   rows <- query oracle SqlSelectEvents [VStr table; VStr rowId] ;;
   foldM printRow tt rows ;;
   query oracle SqlCommit [] ;;
   ret (VObj [])) w = (Throw e, w1) →
  committed w1 = committed w.
Proof.
  intros Hw H.
  apply bind_inv in H as [(? & wa & Hb & H)|(? & Hb & _)].
  2:{ apply query_throw_committed in Hb as ->; [done|by left]. }
  apply query_begin in Hb as (Hopen & _ & Ea & _).
  apply bind_inv in H as [(rows & wb & Hs & H)|(? & Hs & _)].
  2:{ apply query_data_stable in Hs; [|done].
      destruct (Hs Hopen) as [-> _]. done. }
  apply query_data_stable in Hs; [|done]. destruct (Hs Hopen) as [Eb _].
  apply bind_inv in H as [(? & wc & Hp & H)|(? & Hp & _)].
  2:{ by rewrite foldM_printRow in Hp. }
  rewrite foldM_printRow in Hp. injection Hp as _ <-.
  apply bind_inv in H as [(? & wd & Hc & H)|(? & Hc & _)]; [done|].
  apply query_throw_committed in Hc as ->; [|by right; left].
  simpl. congruence.
Qed.

(** On a connection that rejects nothing, [reduceRow] sends [begin], the
    select of the row's log entries and [commit], prints the name and the
    payload of each entry of the row in log order, and returns the empty
    object.  Whatever the connection does, a call made outside a
    transaction leaves the committed data as they were. *)
Theorem reduceRow_prints_entries (oracle : Oracle) (table rowId : string) :
  (∀ w,
     (∀ n q, fails oracle n q = false) →
     reduceRow oracle table rowId w =
       (Normal (VObj []),
        mkWorld (current w) None
          (sent w ++ [(SqlBegin, []);
                      (SqlSelectEvents, [VStr table; VStr rowId]);
                      (SqlCommit, [])])
          (console w ++
           ((λ e, LogPair (le_name e) (le_data e)) <$>
              filter (λ e, onRow table rowId e = true)
                (events (current w)))))) ∧
  (∀ w,
     working w = None →
     committed (reduceRow oracle table rowId w).2 = committed w).
Proof.
  split.
  - intros w Hok. unfold reduceRow, tryCatch, bind.
    unfold query at 1. rewrite Hok.
    unfold query at 1. rewrite Hok.
    destruct w as [c [s|] st con]; simpl;
      rewrite foldM_printRow; unfold query; rewrite Hok; simpl;
      unfold ret, current; simpl;
      by rewrite <- !app_assoc, <- list_fmap_compose.
  - intros w Hw. unfold reduceRow, tryCatch.
    match goal with
    | |- context [match ?body w with _ => _ end] =>
        destruct (body w) as [[v|e] w1] eqn:Hbody
    end.
    + apply bind_inv_normal in Hbody as (? & wa & Hb & H).
      apply query_begin in Hb as (_ & E1 & E2 & _).
      apply bind_inv_normal in H as (rows & wb & Hs & H).
      apply query_data in Hs as (_ & s' & Hex & ->); [|done].
      assert (s' = current wa) as -> by (simpl in Hex; by injection Hex).
      apply bind_inv_normal in H as (? & wc & Hp & H).
      rewrite foldM_printRow in Hp. injection Hp as _ <-.
      apply bind_inv_normal in H as (? & wd & Hc & [= _ <-]).
      apply query_commit in Hc as (Hc & _). simpl. rewrite Hc.
      unfold current at 1. simpl.
      fold (current (setCurrent (current wa)
                       (tick SqlSelectEvents [VStr table; VStr rowId] wa))).
      rewrite current_setCurrent, E1.
      unfold current. by rewrite Hw.
    + apply reduceRow_body_throw in Hbody; [|done].
      unfold bind, consoleLog. rewrite query_rollback. simpl.
      by destruct (fails oracle _ SqlRollback).
Qed.

Lemma reduceRow_prints_entries_witness :
  reduceRow Demo.healthy "items" "row-1" Demo.logged =
    (Normal (VObj []),
     mkWorld (current Demo.logged) None
       (sent Demo.logged ++
        [(SqlBegin, []);
         (SqlSelectEvents, [VStr "items"; VStr "row-1"]);
         (SqlCommit, [])])
       (console Demo.logged ++
        ((λ e, LogPair (le_name e) (le_data e)) <$>
           filter (λ e, onRow "items" "row-1" e = true)
             (events (current Demo.logged))))) ∧
  committed (reduceRow Demo.dead "items" "row-1" Demo.logged).2
    = committed Demo.logged.
Proof.
  destruct (reduceRow_prints_entries Demo.healthy "items" "row-1") as [H1 _].
  destruct (reduceRow_prints_entries Demo.dead "items" "row-1") as [_ H2].
  split.
  - apply H1. intros n q. reflexivity.
  - apply H2. vm_compute. reflexivity.
Defined.

(** ** A modify command that goes through *)

Lemma query_data_ok (o : Oracle) (q : Sql) (params : list Value) (w : World) :
  isData q → fails o (length (sent w)) q = false →
  query o q params w =
    ((exec o (length (sent w)) q params (current w)).1,
     setCurrent (exec o (length (sent w)) q params (current w)).2
       (tick q params w)).
Proof.
  intros Hq Hok. unfold query. rewrite Hok.
  replace (current (tick q params w)) with (current w) by done.
  destruct q; try done; by destruct_exec r s.
Qed.

Lemma aget_head {V} (k : string) (v : V) (o : Assoc V) :
  aget k ((k, v) :: o) = Some v.
Proof. simpl. by rewrite String.eqb_refl. Qed.

Lemma compiled_for_names (schema : SchemaType) (table : string)
    (names : list string) :
  namesForTable (processSchema schema) !! table = Some names →
  selectUpdateForTable (processSchema schema) !! table
    = Some (SqlSelectForUpdate names table) ∧
  updateForTable (processSchema schema) !! table
    = Some (SqlUpdateCoalesce table (zip names (seq 1 (length names)))
              (length names + 1)).
Proof.
  destruct (compiled_tables schema table)
    as [(columns & Hn & Hs & _ & Hu)|(Hn & _)]; rewrite Hn; [|done].
  intros [= <-]. rewrite Hs, Hu.
  unfold compiledSelect, compiledUpdate, compiledNames, akeys.
  by rewrite length_map.
Qed.

(** Sufficient conditions for a modify to commit.  On a connection that
    rejects nothing, when the mutator names one row of a declared table,
    that row exists, planning returns one modify event for it, and the
    registered updater returns a partial row for the row as locked, the
    run sends exactly [begin], the row-locking select, the update, the
    log append and [commit], prints nothing, completes normally, and
    commits the updated rows together with the new log entry. *)
Theorem runCommand_modify_commits {Input : Type} (oracle : Oracle)
    (schema : SchemaType) (reducers : gmap string (gmap string Reducer))
    (command : DispatchCommand Input) (input : Input) (actorId : string)
    (now : Value) (field table rowId eventName : string) (data : Value)
    (updater : Value → Value → Completion Value) (names : list string)
    (rows : list Obj) (row : Obj) (partial : Value) (rowData : list Value)
    (w : World) :
  (∀ k q, fails oracle k q = false) →
  mutator command input = Normal [(field, mkTarget table rowId)] →
  (∀ client locked,
     planActions command client input locked
       = Normal [Some (ModificationEvent eventName rowId (VStr table) data)]) →
  eventName ≠ "" →
  reducerFor reducers table eventName = Some (ReducerModify updater) →
  namesForTable (processSchema schema) !! table = Some names →
  tables (current w) !! table = Some rows →
  head (filter (λ r, hasId rowId r = true) rows) = Some row →
  updater (VObj (lockedRow rowId names row)) data = Normal partial →
  projectRow partial names = Normal rowData →
  runCommand oracle schema reducers command input actorId now w =
    (Normal tt,
     mkWorld
       (mkStore
          (<[table :=
               (λ r : Obj,
                  if hasId rowId r
                  then updateRow (zip names (seq 1 (length names)))
                         (rowData ++ [VStr rowId]) r
                  else r) <$> rows]> (tables (current w)))
          (events (current w) ++
           [mkLogEntry (VStr eventName) (VStr table) (VStr rowId)
              (VStr actorId) data now]))
       None
       (sent w ++
        [(SqlBegin, []);
         (SqlSelectForUpdate names table, [VStr rowId]);
         (SqlUpdateCoalesce table (zip names (seq 1 (length names)))
            (length names + 1), rowData ++ [VStr rowId]);
         (SqlAddEvent,
          [VStr eventName; VStr table; VStr rowId; VStr actorId; data; now]);
         (SqlCommit, [])])
       (console w)).
Proof.
  intros Hok Hmut Hplan Hname Hred Hn Hrows Hrow Hu Hpr.
  destruct (compiled_for_names _ _ _ Hn) as [Hsel Hupd].
  destruct (filter (λ r : Obj, hasId rowId r = true) rows)
    as [|row' rest] eqn:Hfilter; [done|].
  injection Hrow as ->.
  set (s0 := current w) in *.
  set (w1 := mkWorld (committed w) (Some s0) (sent w ++ [(SqlBegin, [])])
               (console w)).
  assert (Hbegin : query oracle SqlBegin [] w = (Normal [], w1)).
  { unfold query. rewrite Hok. subst w1 s0. unfold current, tick. simpl.
    by destruct (working w). }
  set (out := VObj (lockedRow rowId names row)) in *.
  set (qs := SqlSelectForUpdate names table).
  set (w2 := mkWorld (committed w) (Some s0)
               ((sent w ++ [(SqlBegin, [])]) ++ [(qs, [VStr rowId])])
               (console w)).
  assert (Hstep :
    lockRow oracle schema [(field, mkTarget table rowId)] ([], []) field w1
      = (Normal ([(rowId, out)], [(field, out)]), w2)).
  { unfold lockRow. rewrite aget_head. simpl mt_table.
    simpl mt_id. rewrite Hsel, Hn. unfold defined, bind, ret.
    rewrite query_data_ok by done.
    replace (current w1) with s0 by done.
    simpl exec. rewrite Hrows. simpl. rewrite Hfilter. simpl.
    reflexivity. }
  assert (Hlock :
    lockRows oracle schema [(field, mkTarget table rowId)] w1
      = (Normal ([(rowId, out)], [(field, out)]), w2)).
  { unfold lockRows. simpl akeys. rewrite foldM_cons.
    by rewrite (bind_normal _ _ _ _ _ Hstep). }
  set (event := ModificationEvent eventName rowId (VStr table) data).
  assert (Hlp :
    lockAndPlan oracle schema command input w
      = (Normal ([(rowId, out)], [Some event]), w2)).
  { unfold lockAndPlan. rewrite (bind_normal _ _ _ _ _ Hbegin).
    unfold lift at 1. rewrite Hmut. unfold bind at 1.
    rewrite (bind_normal _ _ _ _ _ Hlock).
    unfold liftRead, bind, ret. by rewrite Hplan. }
  set (qu := SqlUpdateCoalesce table (zip names (seq 1 (length names)))
               (length names + 1)).
  set (upd := λ r : Obj,
                if hasId rowId r
                then updateRow (zip names (seq 1 (length names)))
                       (rowData ++ [VStr rowId]) r
                else r).
  set (s3 := mkStore (<[table := upd <$> rows]> (tables s0)) (events s0)).
  set (entry := mkLogEntry (VStr eventName) (VStr table) (VStr rowId)
                  (VStr actorId) data now).
  set (s4 := mkStore (tables s3) (events s3 ++ [entry])).
  set (w4 := mkWorld (committed w) (Some s4)
               ((sent w2 ++ [(qu, rowData ++ [VStr rowId])]) ++
                [(SqlAddEvent,
                  [VStr eventName; VStr table; VStr rowId; VStr actorId;
                   data; now])])
               (console w)).
  assert (Hev :
    applyEvent oracle schema reducers (VStr actorId) now [(rowId, out)]
      (Some event) w2
      = (Normal [(rowId,
                  VObj (aspread (spreadOf out) (spreadOf partial)))], w4)).
  { unfold applyEvent, event. cbn [ev_name ev_table toKey].
    destruct (String.eqb_spec eventName ""); [done|].
    rewrite Hred. cbv beta iota. unfold applyModify, cached. rewrite aget_head.
    cbn [toKey]. rewrite Hn, Hupd.
    unfold lift, defined, bind, ret. rewrite Hu, Hpr.
    rewrite query_data_ok by done.
    replace (current w2) with s0 by done.
    simpl exec. rewrite Hrows.
    rewrite (param_last _ _ _ (projectRow_length _ _ _ Hpr)).
    simpl. rewrite query_data_ok by done. simpl.
    rewrite String.eqb_refl. reflexivity. }
  assert (Happly :
    applyEvents oracle schema reducers (VStr actorId) now [(rowId, out)]
      [Some event] w2
      = (Normal [(rowId,
                  VObj (aspread (spreadOf out) (spreadOf partial)))], w4)).
  { unfold applyEvents. rewrite foldM_cons.
    by rewrite (bind_normal _ _ _ _ _ Hev). }
  rewrite runCommand_unfold, runCommandBody_decompose.
  rewrite (bind_normal _ _ _ _ _ Hlp). simpl.
  rewrite (bind_normal _ _ _ _ _ Happly).
  unfold bind, query. rewrite Hok. simpl.
  unfold ret. subst w2 s4 s3. simpl. by rewrite <- !app_assoc.
Qed.

Lemma runCommand_modify_commits_witness :
  runCommand Demo.healthy Demo.schema (reducers Demo.registry) Demo.bump
      [("id", VStr "r1")] "actor" (VNum 0) Demo.world5 =
    (Normal tt,
     mkWorld
       (mkStore
          (<["items" :=
               (λ r : Obj,
                  if hasId "r1" r
                  then updateRow
                         (zip ["name"; "value"]
                            (seq 1 (length ["name"; "value"])))
                         ([VNull; VNum 6] ++ [VStr "r1"]) r
                  else r) <$> [Demo.item5]]> (tables (current Demo.world5)))
          (events (current Demo.world5) ++
           [mkLogEntry (VStr "bump") (VStr "items") (VStr "r1")
              (VStr "actor") (VObj [("id", VStr "r1")]) (VNum 0)]))
       None
       (sent Demo.world5 ++
        [(SqlBegin, []);
         (SqlSelectForUpdate ["name"; "value"] "items", [VStr "r1"]);
         (SqlUpdateCoalesce "items"
            (zip ["name"; "value"] (seq 1 (length ["name"; "value"])))
            (length ["name"; "value"] + 1), [VNull; VNum 6] ++ [VStr "r1"]);
         (SqlAddEvent,
          [VStr "bump"; VStr "items"; VStr "r1"; VStr "actor";
           VObj [("id", VStr "r1")]; VNum 0]);
         (SqlCommit, [])])
       (console Demo.world5)).
Proof.
  apply (runCommand_modify_commits Demo.healthy Demo.schema
           (reducers Demo.registry) Demo.bump [("id", VStr "r1")] "actor"
           (VNum 0) "item" "items" "r1" "bump" (VObj [("id", VStr "r1")])
           Demo.bumpUpdater ["name"; "value"] [Demo.item5] Demo.item5
           (VObj [("value", VNum 6)]) [VNull; VNum 6] Demo.world5).
  - intros k q. reflexivity.
  - reflexivity.
  - intros client locked. reflexivity.
  - discriminate.
  - vm_compute. reflexivity.
  - vm_compute. reflexivity.
  - vm_compute. reflexivity.
  - vm_compute. reflexivity.
  - vm_compute. reflexivity.
  - vm_compute. reflexivity.
Defined.

(** ** A create command that goes through *)

Lemma compiled_insert_for_names (schema : SchemaType) (table : string)
    (names : list string) :
  namesForTable (processSchema schema) !! table = Some names →
  createForTable (processSchema schema) !! table
    = Some (SqlInsertReturning table names (seq 1 (length names))).
Proof.
  destruct (compiled_tables schema table)
    as [(columns & Hn & _ & Hc & _)|(Hn & _)]; rewrite Hn; [|done].
  intros [= <-]. rewrite Hc.
  unfold compiledInsert, compiledNames, akeys. by rewrite length_map.
Qed.

(** Sufficient conditions for a create to commit.  On a connection that
    rejects nothing, when the mutator names no row, planning returns one
    create event for a declared table that the store has, the registered
    creator returns a row, and the store generates an identifier, the run
    sends exactly [begin], the insert, the log append and [commit],
    prints nothing, completes normally, and commits the table with the
    new row at its end together with the log entry carrying the new
    row's id. *)
Theorem runCommand_create_commits {Input : Type} (oracle : Oracle)
    (schema : SchemaType) (reducers : gmap string (gmap string Reducer))
    (command : DispatchCommand Input) (input : Input) (actorId : string)
    (now : Value) (table eventName id : string) (data : Value)
    (creator : Value → Completion Value) (names : list string)
    (rows : list Obj) (row : Value) (rowData : list Value) (w : World) :
  (∀ k q, fails oracle k q = false) →
  mutator command input = Normal [] →
  (∀ client locked,
     planActions command client input locked
       = Normal [Some (CreationEvent eventName (VStr table) data)]) →
  eventName ≠ "" →
  reducerFor reducers table eventName = Some (ReducerCreate creator) →
  namesForTable (processSchema schema) !! table = Some names →
  NoDup names → "id" ∉ names →
  tables (current w) !! table = Some rows →
  creator data = Normal row →
  projectRow row names = Normal rowData →
  generatedId oracle (length (sent w) + 1) = Some id →
  runCommand oracle schema reducers command input actorId now w =
    (Normal tt,
     mkWorld
       (mkStore
          (<[table :=
               rows ++ [("id", VStr id)
                        :: ((λ c, (c, orNull (vget c row))) <$> names)]]>
             (tables (current w)))
          (events (current w) ++
           [mkLogEntry (VStr eventName) (VStr table) (VStr id)
              (VStr actorId) data now]))
       None
       (sent w ++
        [(SqlBegin, []);
         (SqlInsertReturning table names (seq 1 (length names)), rowData);
         (SqlAddEvent,
          [VStr eventName; VStr table; VStr id; VStr actorId; data; now]);
         (SqlCommit, [])])
       (console w)).
Proof.
  intros Hok Hmut Hplan Hname Hred Hn Hnd Hid Hrows Hcr Hpr Hgen.
  pose proof (compiled_insert_for_names _ _ _ Hn) as Hins.
  pose proof (projectRow_length _ _ _ Hpr) as Hlen.
  set (s0 := current w) in *.
  set (w1 := mkWorld (committed w) (Some s0) (sent w ++ [(SqlBegin, [])])
               (console w)).
  assert (Hbegin : query oracle SqlBegin [] w = (Normal [], w1)).
  { unfold query. rewrite Hok. subst w1 s0. unfold current, tick. simpl.
    by destruct (working w). }
  set (event := CreationEvent eventName (VStr table) data).
  assert (Hlp :
    lockAndPlan oracle schema command input w
      = (Normal ([], [Some event]), w1)).
  { unfold lockAndPlan. rewrite (bind_normal _ _ _ _ _ Hbegin).
    unfold lift at 1. rewrite Hmut. unfold bind at 1.
    unfold lockRows. simpl. unfold liftRead, bind, ret. by rewrite Hplan. }
  set (qi := SqlInsertReturning table names (seq 1 (length names))).
  set (newRow := ("id", VStr id)
                 :: ((λ c, (c, orNull (vget c row))) <$> names)).
  set (entry := mkLogEntry (VStr eventName) (VStr table) (VStr id)
                  (VStr actorId) data now).
  set (s4 := mkStore (<[table := rows ++ [newRow]]> (tables s0))
               (events s0 ++ [entry])).
  set (w4 := mkWorld (committed w) (Some s4)
               ((sent w1 ++ [(qi, rowData)]) ++
                [(SqlAddEvent,
                  [VStr eventName; VStr table; VStr id; VStr actorId;
                   data; now])])
               (console w)).
  assert (Hrow :
    insertedRow (VStr id) names (seq 1 (length names)) rowData = newRow).
  { rewrite (insertedRow_columns _ _ _ Hnd Hid Hlen).
    rewrite (projectRow_normal _ _ _ Hpr), <- list_fmap_compose,
      zip_fmap_self.
    subst newRow. f_equal. apply list_fmap_ext. intros _ c _. simpl.
    by rewrite orNull_idem. }
  assert (Hev :
    applyEvent oracle schema reducers (VStr actorId) now [] (Some event) w1
      = (Normal [], w4)).
  { unfold applyEvent, event. cbn [ev_name ev_table toKey].
    destruct (String.eqb_spec eventName ""); [done|].
    rewrite Hred. cbv beta iota. unfold applyCreate.
    cbn [toKey]. rewrite Hn, Hins.
    unfold lift, defined, bind, ret. rewrite Hcr, Hpr.
    rewrite query_data_ok by done.
    replace (current w1) with s0 by done.
    replace (length (sent w1)) with (length (sent w) + 1)
      by (subst w1; simpl; by rewrite length_app).
    simpl exec. rewrite Hrows, Hgen, Hrow. simpl.
    rewrite query_data_ok by done. simpl. reflexivity. }
  assert (Happly :
    applyEvents oracle schema reducers (VStr actorId) now [] [Some event] w1
      = (Normal [], w4)).
  { unfold applyEvents. rewrite foldM_cons.
    by rewrite (bind_normal _ _ _ _ _ Hev). }
  rewrite runCommand_unfold, runCommandBody_decompose.
  rewrite (bind_normal _ _ _ _ _ Hlp). simpl.
  rewrite (bind_normal _ _ _ _ _ Happly).
  unfold bind, query. rewrite Hok. simpl.
  unfold ret. subst s4. simpl. by rewrite <- !app_assoc.
Qed.

Lemma runCommand_create_commits_witness :
  runCommand Demo.healthy Demo.schema (reducers Demo.registry) Demo.createItem
      [("name", VStr "a"); ("value", VNum 1)] "actor" (VNum 0) Demo.world0 =
    (Normal tt,
     mkWorld
       (mkStore
          (<["items" :=
               [] ++ [("id", VStr "row-1")
                      :: ((λ c, (c, orNull
                                      (vget c
                                         (VObj [("name", VStr "a");
                                                ("value", VNum 1)]))))
                            <$> ["name"; "value"])]]>
             (tables (current Demo.world0)))
          (events (current Demo.world0) ++
           [mkLogEntry (VStr "createItem") (VStr "items") (VStr "row-1")
              (VStr "actor") (VObj [("name", VStr "a"); ("value", VNum 1)])
              (VNum 0)]))
       None
       (sent Demo.world0 ++
        [(SqlBegin, []);
         (SqlInsertReturning "items" ["name"; "value"]
            (seq 1 (length ["name"; "value"])), [VStr "a"; VNum 1]);
         (SqlAddEvent,
          [VStr "createItem"; VStr "items"; VStr "row-1"; VStr "actor";
           VObj [("name", VStr "a"); ("value", VNum 1)]; VNum 0]);
         (SqlCommit, [])])
       (console Demo.world0)).
Proof.
  apply (runCommand_create_commits Demo.healthy Demo.schema
           (reducers Demo.registry) Demo.createItem
           [("name", VStr "a"); ("value", VNum 1)] "actor" (VNum 0)
           "items" "createItem" "row-1"
           (VObj [("name", VStr "a"); ("value", VNum 1)])
           Demo.itemCreator ["name"; "value"] []
           (VObj [("name", VStr "a"); ("value", VNum 1)])
           [VStr "a"; VNum 1] Demo.world0).
  - intros k q. reflexivity.
  - reflexivity.
  - intros client locked. reflexivity.
  - discriminate.
  - vm_compute. reflexivity.
  - vm_compute. reflexivity.
  - repeat constructor; set_solver.
  - set_solver.
  - vm_compute. reflexivity.
  - reflexivity.
  - reflexivity.
  - reflexivity.
Defined.
